(** * Renderer resolution and hydration-script generation

    A shallow embedding of [__astro_component.ts] (the module that
    exports [setRenderers] and [__astro_component]): the renderer
    registry, the resolution cache, [resolveRenderer], the hydration
    script generator and the two-stage component entry point.

    The module keeps two pieces of module-level state, the array
    [rendererInstances] and the [Map] [rendererCache]; they are threaded
    explicitly through a state-and-exception monad.  Renderer adapters
    are external: their [check] and [renderToStaticMarkup] are fields of
    the renderer record, and every invocation of a [check] is appended
    to a log kept next to the state (the "counting stub" of the
    adapters), so that statements about which checks ran can be made. *)

From Stdlib Require Import String Ascii List Bool Arith Lia.
From stdpp Require Import base option countable gmap strings list pretty.

Set Default Proof Using "Type".

(** ** JavaScript values seen by the module *)

(** A component value.  The module only ever looks at: whether it is
    [null]/[undefined], its [typeof] ('string', 'function', other), the
    characters of a string, the [displayName] and [name] of a function,
    its string coercion, and its identity as a [Map] key.  [ref] stands
    for the reference identity of a function or object. *)
Inductive Component : Type :=
| CNull
| CUndefined
| CString (s : string)
| CFunction (ref : nat) (displayName : option string) (name : string)
| CObject (ref : nat) (repr : string).

(** Thrown values.  [Error msg] is [new Error(msg)]; [TypeError] is what
    the engine raises on a property read of [undefined], with the
    engine's own wording as message. *)
Inductive JsError : Type :=
| Error (message : string)
| TypeError (message : string).

(** How a call ends: with a value, or by throwing. *)
Inductive Completion (A : Type) : Type :=
| Normal (a : A)
| Throw (e : JsError).
Arguments Normal {A} a.
Arguments Throw {A} e.

Inductive HydrateMode : Type := Load | Idle | Visible.

Record ComponentExport : Type := {
  value : string;
  namespace : option bool
}.

(** [AstroComponentProps].  Every field can be absent at run time (the
    default argument is [{} as any]); [None] is [undefined]. *)
Record AstroComponentProps : Type := {
  displayName : option string;
  hydrate : option HydrateMode;
  componentUrl : option string;
  componentExport : option ComponentExport
}.

Global Instance Component_eq_dec : EqDecision Component.
Proof. solve_decision. Defined.

Definition Component_enc (c : Component)
  : unit + (unit + (string + (nat * option string * string + nat * string))) :=
  match c with
  | CNull => inl tt
  | CUndefined => inr (inl tt)
  | CString s => inr (inr (inl s))
  | CFunction r d n => inr (inr (inr (inl (r, d, n))))
  | CObject r s => inr (inr (inr (inr (r, s))))
  end.

Definition Component_dec
  (x : unit + (unit + (string + (nat * option string * string + nat * string))))
  : Component :=
  match x with
  | inl _ => CNull
  | inr (inl _) => CUndefined
  | inr (inr (inl s)) => CString s
  | inr (inr (inr (inl (r, d, n)))) => CFunction r d n
  | inr (inr (inr (inr (r, s)))) => CObject r s
  end.

Global Instance Component_countable : Countable Component.
Proof. by apply (inj_countable' Component_enc Component_dec); intros []. Defined.

(** ** String helpers *)

Definition nl : string := String (ascii_of_nat 10) EmptyString.
Definition dq : string := String (ascii_of_nat 34) EmptyString.

(** [/-/.test(name)] *)
Fixpoint has_hyphen (s : string) : bool :=
  match s with
  | EmptyString => false
  | String c r => if Ascii.eqb c "-"%char then true else has_hyphen r
  end.

(** [s1] occurs somewhere in [s2]. *)
Fixpoint occurs (s1 s2 : string) : bool :=
  if String.prefix s1 s2 then true
  else match s2 with
       | EmptyString => false
       | String _ r => occurs s1 r
       end.

(** [s] has no character [ch]. *)
Fixpoint lacks (ch : ascii) (s : string) : bool :=
  match s with
  | EmptyString => true
  | String a r => if Ascii.eqb a ch then false else lacks ch r
  end.

(** String coercion inside a template literal. *)
Definition tpl_opt (o : option string) : string :=
  match o with
  | Some s => s
  | None => "undefined"
  end.

(** Truthiness of a string-or-absent value: [undefined], [null] and the
    empty string are falsy. *)
Definition truthy (o : option string) : bool :=
  match o with
  | Some (String _ _) => true
  | _ => false
  end.

Definition tpl_mode (m : HydrateMode) : string :=
  match m with
  | Load => "load"
  | Idle => "idle"
  | Visible => "visible"
  end.

(** ** The module, over its imports *)

Section AstroComponent.

(** [props] and adapter [options] are passed through opaquely. *)
Variable Props : Type.
Variable Options : Type.

(** [serialize = (value) => generate(valueToEstree(value))], from the
    packages [estree-util-value-to-estree] and [astring]. *)
Variable serialize : Props -> string.

(** [hash.unique], from the package [shorthash]. *)
Variable hash_unique : string -> string.

(** Modelled from the spec: the [Renderer] interface of
    [../@types/astro], which is not among the sources.  It has the two
    operations the module calls, [check] and [renderToStaticMarkup],
    each of which may throw; the object returned by
    [renderToStaticMarkup] is represented by its [html] field.  An
    adapter's answer is taken to be a function of its arguments. *)
Record Renderer : Type := {
  check : Component -> Props -> string -> option Options -> Completion bool;
  renderToStaticMarkup :
    Component -> Props -> string -> option Options -> Completion string
}.

Record RendererInstance : Type := {
  source : option string;
  renderer : Renderer;
  options : option Options;
  polyfills : list string
}.

(** The modules [./renderer-astro] and [./renderer-html]. *)
Variable astro : Renderer.
Variable astroHtml : Renderer.

Definition astroRendererInstance : RendererInstance :=
  {| source := Some EmptyString; renderer := astro;
     options := None; polyfills := [] |}.

Definition astroHtmlRendererInstance : RendererInstance :=
  {| source := Some EmptyString; renderer := astroHtml;
     options := None; polyfills := [] |}.

(** Module-level state, plus the log of [check] invocations. *)
Record Runtime : Type := {
  rendererInstances : list RendererInstance;
  rendererCache : gmap Component RendererInstance;
  checked : list RendererInstance
}.

(** [let rendererInstances = []] and [new Map()] at module load. *)
Definition initial : Runtime :=
  {| rendererInstances := []; rendererCache := ∅; checked := [] |}.

(** *** The monad *)

Definition M (A : Type) : Type := Runtime -> Completion A * Runtime.

Definition ret {A} (a : A) : M A := fun st => (Normal a, st).
Definition throw {A} (e : JsError) : M A := fun st => (Throw e, st).
Definition bind {A B} (m : M A) (k : A -> M B) : M B :=
  fun st =>
    match m st with
    | (Normal a, st') => k a st'
    | (Throw e, st') => (Throw e, st')
    end.

Notation "x <- m ;; k" := (bind m (fun x => k))
  (at level 100, m at next level, right associativity).
Notation "m ;;; k" := (bind m (fun _ => k))
  (at level 100, right associativity).

(** [await x] of a settled completion. *)
Definition await {A} (c : Completion A) : M A :=
  match c with
  | Normal a => ret a
  | Throw e => throw e
  end.

Definition get_rendererInstances : M (list RendererInstance) :=
  fun st => (Normal (rendererInstances st), st).

Definition cache_get (c : Component) : M (option RendererInstance) :=
  fun st => (Normal (rendererCache st !! c), st).

Definition cache_set (c : Component) (i : RendererInstance) : M unit :=
  fun st =>
    (Normal tt,
     {| rendererInstances := rendererInstances st;
        rendererCache := <[c := i]> (rendererCache st);
        checked := checked st |}).

(** [renderer.check(Component, props, children, options)], logged.  The
    completion is handed back as a value: the caller wraps the call in
    [try]/[catch]. *)
Definition run_check (i : RendererInstance) (c : Component) (props : Props)
    (children : string) : Completion bool :=
  check (renderer i) c props children (options i).

Definition call_check (i : RendererInstance) (c : Component) (props : Props)
    (children : string) : M (Completion bool) :=
  fun st =>
    (Normal (run_check i c props children),
     {| rendererInstances := rendererInstances st;
        rendererCache := rendererCache st;
        checked := checked st ++ [i] |}).

(** *** [setRenderers] *)

Definition setRenderers (_rendererInstances : list RendererInstance) : M unit :=
  fun st =>
    (Normal tt,
     {| rendererInstances := [astroRendererInstance] ++ _rendererInstances;
        rendererCache := rendererCache st;
        checked := checked st |}).

(** *** [isCustomElementTag] *)

Definition isCustomElementTag (name : Component) : bool :=
  match name with
  | CString s => has_hyphen s
  | _ => false
  end.

(** *** [resolveRenderer] *)

(** The [for ... of] loop over the registry, with the local [errors]
    array, followed by the code after the loop. *)
Fixpoint resolve_loop (pending : list RendererInstance) (errors : list JsError)
    (c : Component) (props : Props) (children : string)
    : M (option RendererInstance) :=
  match pending with
  | instance :: rest =>
      r <- call_check instance c props children ;;
      match r with
      | Normal shouldUse =>
          if shouldUse then
            cache_set c instance ;;; ret (Some instance)
          else resolve_loop rest errors c props children
      | Throw err => resolve_loop rest (errors ++ [err]) c props children
      end
  | [] =>
      match errors with
      | e0 :: _ => throw e0
      | [] => ret None
      end
  end.

Definition resolveRenderer (c : Component) (props : Props) (children : string)
    : M (option RendererInstance) :=
  hit <- cache_get c ;;
  match hit with
  | Some i => ret (Some i)
  | None =>
      l <- get_rendererInstances ;;
      resolve_loop l [] c props children
  end.

(** *** [generateHydrateScript] *)

(** The two template literals for [hydrationSource], after [.trim()]:
    the literal text starts with a newline and two blanks and ends with
    a newline, which is what [trim] removes. *)
Definition hydrationSource_client (exportName url src : string) (props : Props)
    : string :=
  "const [{ " +:+ exportName +:+
  ": Component }, { default: hydrate }] = await Promise.all([import(" +:+ dq +:+
  url +:+ dq +:+ "), import(" +:+ dq +:+ src +:+ dq +:+ ")]);" +:+ nl +:+
  "  return (el, children) => hydrate(el)(Component, " +:+ serialize props +:+
  ", children);".

Definition hydrationSource_static (url : string) : string :=
  "await import(" +:+ dq +:+ url +:+ dq +:+ ");" +:+ nl +:+
  "  return () => {};".

Definition hydrationScript (mode astroId hydrationSource : string) : string :=
  "<script type=" +:+ dq +:+ "module" +:+ dq +:+ ">" +:+ nl +:+
  "import setup from '/_astro_frontend/hydrate/" +:+ mode +:+ ".js';" +:+ nl +:+
  "setup(" +:+ dq +:+ astroId +:+ dq +:+ ", async () => {" +:+ nl +:+
  "  " +:+ hydrationSource +:+ nl +:+
  "});" +:+ nl +:+
  "</script>".

Definition generateHydrateScript (instance : RendererInstance)
    (astroId : string) (props : Props) (componentProps : AstroComponentProps)
    : Completion string :=
  let mode := tpl_opt (tpl_mode <$> hydrate componentProps) in
  let url := tpl_opt (componentUrl componentProps) in
  if truthy (source instance) then
    match componentExport componentProps with
    | Some ce =>
        Normal (hydrationScript mode astroId
                  (hydrationSource_client (value ce) url
                     (tpl_opt (source instance)) props))
    | None =>
        Throw (TypeError "Cannot read property 'value' of undefined")
    end
  else
    Normal (hydrationScript mode astroId (hydrationSource_static url)).

(** *** [getComponentName] *)

(** The result is only ever interpolated into a message, so it is given
    as the string the template literal shows. *)
Definition getComponentName (c : Component) (componentProps : AstroComponentProps)
    : string :=
  if truthy (displayName componentProps) then
    tpl_opt (displayName componentProps)
  else
    match c with
    | CFunction _ d n =>
        match d with
        | Some d' => d'
        | None => n
        end
    | CString s => s
    | CNull => "null"
    | CUndefined => "undefined"
    | CObject _ r => r
    end.

(** *** Removing the wrapper marker *)

(** [html.replace(/\<\/?astro-fragment\>/g, '')]: a single scan from the
    left; at each position the pattern matches exactly one of the two
    literals below, and a match is skipped whole.  [skip] counts the
    characters of the current match still to drop. *)
Definition fragment_open : string := "<astro-fragment>".
Definition fragment_close : string := "</astro-fragment>".

Fixpoint strip_from (skip : nat) (s : string) : string :=
  match s with
  | EmptyString => EmptyString
  | String ch rest =>
      match skip with
      | S k => strip_from k rest
      | O =>
          if String.prefix fragment_open s then strip_from 15 rest
          else if String.prefix fragment_close s then strip_from 16 rest
          else String ch (strip_from 0 rest)
      end
  end.

Definition strip_fragments (html : string) : string := strip_from 0 html.

(** *** [__astro_component] *)

Definition msg_nullish (componentProps : AstroComponentProps) (shown : string)
    : string :=
  "Unable to render " +:+ tpl_opt (displayName componentProps) +:+
  " because it is " +:+ shown +:+ "!" +:+ nl +:+
  "Did you forget to import the component or is it possible there is a typo?".

Definition msg_unable (componentProps : AstroComponentProps) : string :=
  "Astro is unable to render " +:+ tpl_opt (displayName componentProps) +:+
  "!" +:+ nl +:+
  "Is there a renderer to handle this type of component defined in your Astro config?".

Definition msg_no_renderer (name : string) : string :=
  "No renderer found for " +:+ name +:+
  "! Did you forget to add a renderer to your Astro config?".

(** The [if (!instance) { ... }] block of the second stage. *)
Definition fallback (c : Component) (componentProps : AstroComponentProps)
    : M RendererInstance :=
  instance <-
    (if isCustomElementTag c then ret (Some astroHtmlRendererInstance)
     else
       l <- get_rendererInstances ;;
       ret (if Nat.eqb (List.length l) 2 then l !! 1 else None)) ;;
  match instance with
  | Some i => ret i
  | None => throw (Error (msg_no_renderer (getComponentName c componentProps)))
  end.

Definition polyfillScripts (l : list string) : string :=
  String.concat EmptyString
    (List.map (fun src =>
       "<script type=" +:+ dq +:+ "module" +:+ dq +:+ " src=" +:+ dq +:+ src +:+
       dq +:+ "></script>") l).

(** The second stage from the call of [renderToStaticMarkup] on, once
    [instance] is settled. *)
Definition render_instance (instance : RendererInstance) (c : Component)
    (componentProps : AstroComponentProps) (props : Props) (children : string)
    : M string :=
  html <- await (renderToStaticMarkup (renderer instance) c props children
                   (options instance)) ;;
  let html :=
    match polyfills instance with
    | [] => html
    | _ :: _ => html +:+ polyfillScripts (polyfills instance)
    end in
  match hydrate componentProps with
  | None => ret (strip_fragments html)
  | Some _ =>
      let astroId := hash_unique html in
      script <- await (generateHydrateScript instance astroId props
                         componentProps) ;;
      let astroRoot :=
        "<astro-root uid=" +:+ dq +:+ astroId +:+ dq +:+ ">" +:+ html +:+
        "</astro-root>" in
      ret (String.concat nl [astroRoot; script])
  end.

(** The [async (props, ..._children) => ...] closure. *)
Definition render (c : Component) (componentProps : AstroComponentProps)
    (props : Props) (_children : list string) : M string :=
  let children := String.concat nl _children in
  found <- resolveRenderer c props children ;;
  instance <-
    match found with
    | Some i => ret i
    | None => fallback c componentProps
    end ;;
  render_instance instance c componentProps props children.

(** The first stage: validation, then the closure. *)
Definition __astro_component (c : Component)
    (componentProps : AstroComponentProps)
    : Completion (Props -> list string -> M string) :=
  match c with
  | CNull => Throw (Error (msg_nullish componentProps "null"))
  | CUndefined => Throw (Error (msg_nullish componentProps "undefined"))
  | CString _ =>
      if negb (isCustomElementTag c) then
        Throw (Error (msg_unable componentProps))
      else Normal (render c componentProps)
  | _ => Normal (render c componentProps)
  end.

(** A call site of the templating layer:
    [__astro_component(Component, componentProps)(props, ...children)]. *)
Definition embed (c : Component) (componentProps : AstroComponentProps)
    (props : Props) (children : list string) : M string :=
  stage2 <- await (__astro_component c componentProps) ;;
  stage2 props children.

End AstroComponent.

Arguments Renderer : clear implicits.
Arguments RendererInstance : clear implicits.
Arguments Runtime : clear implicits.
Arguments M : clear implicits.
Arguments initial {Props Options}.
Arguments ret {Props Options A} a.
Arguments throw {Props Options A} e.
Arguments bind {Props Options A B} m k.
Arguments await {Props Options A} c.
Arguments run_check {Props Options} i c props children.
Arguments setRenderers {Props Options} astro _rendererInstances.
Arguments astroRendererInstance {Props Options} astro.
Arguments astroHtmlRendererInstance {Props Options} astroHtml.
Arguments resolve_loop {Props Options} pending errors c props children.
Arguments resolveRenderer {Props Options} c props children.
Arguments generateHydrateScript {Props Options} serialize instance astroId
  props componentProps.
Arguments hydrationSource_client {Props} serialize exportName url src props.
Arguments fallback {Props Options} astroHtml c componentProps.
Arguments render_instance {Props Options} serialize hash_unique instance c
  componentProps props children.
Arguments render {Props Options} serialize hash_unique astroHtml c
  componentProps props _children.
Arguments __astro_component {Props Options} serialize hash_unique astroHtml c
  componentProps.
Arguments embed {Props Options} serialize hash_unique astroHtml c
  componentProps props children.
Arguments check {Props Options} r _ _ _ _.
Arguments renderToStaticMarkup {Props Options} r _ _ _ _.
Arguments Build_Renderer {Props Options} check renderToStaticMarkup.
Arguments source {Props Options} r.
Arguments renderer {Props Options} r.
Arguments options {Props Options} r.
Arguments polyfills {Props Options} r.
Arguments Build_RendererInstance {Props Options} source renderer options
  polyfills.
Arguments rendererInstances {Props Options} r.
Arguments rendererCache {Props Options} r.
Arguments checked {Props Options} r.
Arguments Build_Runtime {Props Options} rendererInstances rendererCache
  checked.

(** ** Sequences of calls into the module *)

(** What a session does with the module: install a registry, resolve,
    or render an embedded component. *)
Inductive Call (Props Options : Type) : Type :=
| CallSetRenderers (l : list (RendererInstance Props Options))
| CallResolve (c : Component) (props : Props) (children : string)
| CallEmbed (c : Component) (componentProps : AstroComponentProps)
    (props : Props) (children : list string).
Arguments CallSetRenderers {Props Options} l.
Arguments CallResolve {Props Options} c props children.
Arguments CallEmbed {Props Options} c componentProps props children.

Section Calls.
Context {Props Options : Type}.
Variable serialize : Props -> string.
Variable hash_unique : string -> string.
Variables astro astroHtml : Renderer Props Options.

Definition call (k : Call Props Options) (st : Runtime Props Options)
    : Runtime Props Options :=
  match k with
  | CallSetRenderers l => snd (setRenderers astro l st)
  | CallResolve c props children => snd (resolveRenderer c props children st)
  | CallEmbed c cp props children =>
      snd (embed serialize hash_unique astroHtml c cp props children st)
  end.

Definition calls (ks : list (Call Props Options)) (st : Runtime Props Options)
    : Runtime Props Options :=
  fold_left (fun st k => call k st) ks st.


End Calls.

(** The error a check throws, if it throws. *)
Definition check_error {Props Options : Type} (c : Component) (props : Props)
    (children : string) (i : RendererInstance Props Options)
    : option JsError :=
  match run_check i c props children with
  | Throw e => Some e
  | Normal _ => None
  end.

(** The errors thrown by the checks of a list of adapters, in order. *)
Definition thrown {Props Options : Type} (c : Component) (props : Props)
    (children : string) (l : list (RendererInstance Props Options))
    : list JsError :=
  omap (check_error c props children) l.

(** ** Markup as marker tags between texts *)

Inductive Marker : Type := OpenTag | CloseTag.

Definition marker_text (m : Marker) : string :=
  match m with
  | OpenTag => fragment_open
  | CloseTag => fragment_close
  end.

(** [t1 M1 t2 M2 ... tn Mn last] *)
Fixpoint segments (segs : list (string * Marker)) (last : string) : string :=
  match segs with
  | [] => last
  | (t, m) :: rest => t +:+ marker_text m +:+ segments rest last
  end.

Fixpoint texts (segs : list (string * Marker)) (last : string) : string :=
  match segs with
  | [] => last
  | (t, _) :: rest => t +:+ texts rest last
  end.

Definition marker_free (t : string) : Prop :=
  occurs fragment_open t = false /\ occurs fragment_close t = false.

(** ** Sample adapters and registries *)

Module Samples.

Definition SProps : Type := list (string * string).

Fixpoint fields (l : SProps) : string :=
  match l with
  | [] => EmptyString
  | [(k, v)] => k +:+ ": " +:+ v
  | (k, v) :: rest => k +:+ ": " +:+ v +:+ ", " +:+ fields rest
  end.

Definition sample_serialize (l : SProps) : string := "{" +:+ fields l +:+ "}".
Definition sample_hash (s : string) : string := "Z1x9" .

Definition stub (answer : Completion bool) (html : string)
    : Renderer SProps unit :=
  {| check := fun _ _ _ _ => answer;
     renderToStaticMarkup := fun _ _ _ _ => Normal html |}.

Definition adapter (src : option string) (answer : Completion bool)
    (html : string) : RendererInstance SProps unit :=
  {| source := src; renderer := stub answer html; options := Some tt;
     polyfills := [] |}.

Definition self_r : Renderer SProps unit := stub (Normal false) "self".
Definition html_r : Renderer SProps unit :=
  stub (Normal false) "<my-widget></my-widget>".

Definition boom1 : JsError := Error "first check failed".
Definition boom2 : JsError := Error "second check failed".

Definition thrower1 := adapter (Some "/r/one.js") (Throw boom1) "one".
Definition thrower2 := adapter (Some "/r/two.js") (Throw boom2) "two".
Definition decliner := adapter (Some "/r/no.js") (Normal false) "no".
Definition accepter := adapter (Some "/r/yes.js") (Normal true) "<p>yes</p>".
Definition nested :=
  adapter (Some "/r/n.js") (Normal true) "<astro-<astro-fragment>fragment>hi".
Definition shouting :=
  adapter (Some "/r/s.js") (Normal true) "<ASTRO-FRAGMENT>hi</ASTRO-FRAGMENT>".

Definition Counter : Component := CFunction 1 None "Counter".
Definition widget : Component := CString "my-widget".

Definition static_props (name : string) : AstroComponentProps :=
  {| displayName := Some name; hydrate := None; componentUrl := None;
     componentExport := None |}.

Definition hydrated_props (name : string) (m : HydrateMode) (url exp : string)
    : AstroComponentProps :=
  {| displayName := Some name; hydrate := Some m; componentUrl := Some url;
     componentExport := Some {| value := exp; namespace := None |} |}.

Definition with_registry (l : list (RendererInstance SProps unit))
    : Runtime SProps unit :=
  snd (setRenderers self_r l initial).

Definition sembed := embed sample_serialize sample_hash html_r.

(** An adapter that accepts everything and whose render throws. *)
Definition render_error : JsError := Error "render failed".
Definition failing : RendererInstance SProps unit :=
  {| source := None;
     renderer := {| check := fun _ _ _ _ => Normal true;
                    renderToStaticMarkup := fun _ _ _ _ => Throw render_error |};
     options := None; polyfills := [] |}.

Definition hydrated_no_export (name : string) (m : HydrateMode) (url : string)
    : AstroComponentProps :=
  {| displayName := Some name; hydrate := Some m; componentUrl := Some url;
     componentExport := None |}.

End Samples.

(** * The configuration manager

    [config_manager.ts]: the class [ConfigManager], which tracks whether
    the project configuration must be reloaded, and the checks it makes
    on the renderer packages it loads.  Its collaborators ([loadConfig],
    the Snowpack runtime, [resolve.sync], [path.join]) are parameters;
    each call of [loadConfig] and [importModule] is logged in the
    manager, and their answers may depend on what was logged before. *)

Module Config.

Definition CONFIG_MODULE_BASE_NAME : string := "__astro_config.js".
Definition CONFIG_MODULE_URL : string :=
  "/_astro_frontend/" +:+ CONFIG_MODULE_BASE_NAME.

Definition DEFAULT_RENDERERS : list string :=
  ["@astrojs/renderer-vue"; "@astrojs/renderer-svelte";
   "@astrojs/renderer-react"; "@astrojs/renderer-preact"].

(** The field [state]. *)
Inductive State : Type := Initial | Dirty | Clean.

(** What the manager reads of an [AstroConfig]: the pathname of
    [projectRoot] and the optional [renderers]. *)
Record AstroConfig : Type := {
  projectRoot : string;
  renderers : option (list string)
}.

Inductive Effect : Type :=
| LoadConfig (root fileName : string)
| ImportModule (url : string).

(** [filename.endsWith(suffix)] *)
Fixpoint ends_with (suffix s : string) : bool :=
  if String.eqb s suffix then true
  else match s with
       | EmptyString => false
       | String _ r => ends_with suffix r
       end.

(** [isConfigModule] *)
Definition isConfigModule (fileExt filename : string) : bool :=
  String.eqb fileExt ".js" && ends_with CONFIG_MODULE_BASE_NAME filename.

(** The file name a reload asks for. *)
Definition versioned (version : N) : string :=
  "astro.config.mjs?version=" +:+ pretty version.

(** The field [version] is a JavaScript number.  It starts at 1 and is
    only ever changed by [++], so it holds an integer; up to [2^53] the
    increment is exact, and at [2^53] the sum is not a number of the
    format and is rounded back to [2^53]. *)
Definition MAX_EXACT : N := 9007199254740992.

Section Manager.

Variable SnowpackRuntime : Type.
Variable loadConfig : list Effect -> string -> string -> Completion AstroConfig.
Variable importModule :
  list Effect -> SnowpackRuntime -> string -> Completion unit.

(** The fields of the class that its methods use, and the log of the
    calls made to the collaborators; [configModuleId] is declared but
    no method reads or writes it. *)
Record ConfigManager : Type := {
  state : State;
  snowpackRuntime : option SnowpackRuntime;
  rendererNames : list string;
  version : N;
  astroConfig : AstroConfig;
  effects : list Effect
}.

(** [setRendererNames]: [astroConfig.renderers || DEFAULT_RENDERERS];
    an array, empty or not, is truthy. *)
Definition setRendererNames (cfg : AstroConfig) (m : ConfigManager)
    : ConfigManager :=
  {| state := state m; snowpackRuntime := snowpackRuntime m;
     rendererNames :=
       match renderers cfg with
       | Some l => l
       | None => DEFAULT_RENDERERS
       end;
     version := version m; astroConfig := astroConfig m;
     effects := effects m |}.

(** The constructor. *)
Definition create (cfg : AstroConfig) : ConfigManager :=
  setRendererNames cfg
    {| state := Initial; snowpackRuntime := None; rendererNames := [];
       version := 1%N; astroConfig := cfg; effects := [] |}.

(** Assignment to the public field [snowpackRuntime]. *)
Definition set_runtime (rt : option SnowpackRuntime) (m : ConfigManager)
    : ConfigManager :=
  {| state := state m; snowpackRuntime := rt;
     rendererNames := rendererNames m; version := version m;
     astroConfig := astroConfig m; effects := effects m |}.

Definition set_state (s : State) (m : ConfigManager) : ConfigManager :=
  {| state := s; snowpackRuntime := snowpackRuntime m;
     rendererNames := rendererNames m; version := version m;
     astroConfig := astroConfig m; effects := effects m |}.

Definition log (e : Effect) (m : ConfigManager) : ConfigManager :=
  {| state := state m; snowpackRuntime := snowpackRuntime m;
     rendererNames := rendererNames m; version := version m;
     astroConfig := astroConfig m; effects := effects m ++ [e] |}.

(** [this.version++], on a number that holds an integer of at most
    [2^53]: see [MAX_EXACT]. *)
Definition bump (m : ConfigManager) : ConfigManager :=
  {| state := state m; snowpackRuntime := snowpackRuntime m;
     rendererNames := rendererNames m;
     version := (if version m <? MAX_EXACT then version m + 1
                 else version m)%N;
     astroConfig := astroConfig m; effects := effects m |}.

Definition markDirty (m : ConfigManager) : ConfigManager := set_state Dirty m.

Definition needsUpdate (m : ConfigManager) : bool :=
  match state m with
  | Initial | Dirty => true
  | Clean => false
  end.

(** [importModule]: [snowpackRuntime.importModule(CONFIG_MODULE_URL)] *)
Definition do_importModule (rt : SnowpackRuntime) (m : ConfigManager)
    : Completion unit * ConfigManager :=
  (importModule (effects m) rt CONFIG_MODULE_URL,
   log (ImportModule CONFIG_MODULE_URL) m).

(** The reload inside [update], taken when the state is ['dirty']. *)
Definition reload (m : ConfigManager) : Completion unit * ConfigManager :=
  let v := version m in
  let m1 := bump m in
  let root := projectRoot (astroConfig m1) in
  match loadConfig (effects m1) root (versioned v) with
  | Normal cfg =>
      (Normal tt, setRendererNames cfg (log (LoadConfig root (versioned v)) m1))
  | Throw e => (Throw e, log (LoadConfig root (versioned v)) m1)
  end.

(** [update] *)
Definition update (m : ConfigManager) : Completion unit * ConfigManager :=
  match needsUpdate m, snowpackRuntime m with
  | true, Some rt =>
      let '(r, m1) :=
        match state m with
        | Dirty => reload m
        | _ => (Normal tt, m)
        end in
      match r with
      | Throw e => (Throw e, m1)
      | Normal _ =>
          match do_importModule rt m1 with
          | (Normal _, m2) => (Normal tt, set_state Clean m2)
          | (Throw e, m2) => (Throw e, m2)
          end
      end
  | _, _ => (Normal tt, m)
  end.

(** What is done to a manager over time. *)
Inductive Op : Type :=
| OpMarkDirty
| OpUpdate
| OpSetRuntime (rt : option SnowpackRuntime).

Definition op (o : Op) (m : ConfigManager) : ConfigManager :=
  match o with
  | OpMarkDirty => markDirty m
  | OpUpdate => snd (update m)
  | OpSetRuntime rt => set_runtime rt m
  end.

Definition ops (l : list Op) (m : ConfigManager) : ConfigManager :=
  fold_left (fun m o => op o m) l m.

(** The file names asked of [loadConfig] so far. *)
Definition loaded (l : list Effect) : list string :=
  omap (fun e => match e with
                 | LoadConfig _ f => Some f
                 | ImportModule _ => None
                 end) l.

(** What every operation keeps: the file names loaded so far are those
    of pairwise distinct versions, all below the current one. *)
Definition versions_used (m : ConfigManager) (ks : list N) : Prop :=
  loaded (effects m) = versioned <$> ks /\ NoDup ks /\
  Forall (fun k => (k < version m)%N) ks.

End Manager.

(** *** The renderer packages *)

(** The values a field of a renderer package can hold, as far as
    [typeof] and truthiness tell them apart; numbers are integers. *)
Inductive JsVal : Type :=
| JUndefined
| JNull
| JBool (b : bool)
| JNumber (n : Z)
| JString (s : string)
| JObject
| JFunction.

Definition typeof (v : JsVal) : string :=
  match v with
  | JUndefined => "undefined"
  | JNull => "object"
  | JBool _ => "boolean"
  | JNumber _ => "number"
  | JString _ => "string"
  | JObject => "object"
  | JFunction => "function"
  end.

Definition js_truthy (v : JsVal) : bool :=
  match v with
  | JUndefined | JNull => false
  | JBool b => b
  | JNumber n => negb (Z.eqb n 0)
  | JString s => negb (String.eqb s EmptyString)
  | JObject | JFunction => true
  end.

(** The default export of a renderer package; [name], when present, is
    a string. *)
Record RawRenderer : Type := {
  raw_name : option string;
  raw_client : JsVal;
  raw_server : JsVal;
  raw_snowpackPlugin : JsVal;
  raw_snowpackPluginOptions : JsVal;
  raw_knownEntrypoints : JsVal;
  raw_jsxImportSource : JsVal
}.

(** [RendererSnowpackPlugin = string | [string, any] | undefined] *)
Inductive RendererSnowpackPlugin : Type :=
| NoPlugin
| Plugin (path : string)
| PluginWithOptions (path : string) (opts : JsVal).

(** The interface [RendererInstance] of this file. *)
Record RendererInstance : Type := {
  name : string;
  snowpackPlugin : RendererSnowpackPlugin;
  client : string;
  server : string;
  knownEntrypoints : JsVal;
  jsxImportSource : JsVal
}.

Section Build.

(** [resolve.sync(dep, { basedir })] and [path.join] *)
Variable resolveDependency : string -> Completion string.
Variable path_join : string -> string -> string.

Definition msg_client (name : string) : string :=
  "Expected " +:+ dq +:+ "client" +:+ dq +:+ " from " +:+ name +:+
  " to be a relative path to the client-side renderer!".

Definition msg_server (name : string) : string :=
  "Expected " +:+ dq +:+ "server" +:+ dq +:+ " from " +:+ name +:+
  " to be a relative path to the server-side renderer!".

Definition msg_plugin (name : string) (found : string) : string :=
  "Expected the snowpackPlugin from " +:+ name +:+ " to be a " +:+ dq +:+
  "string" +:+ dq +:+ " but encountered " +:+ dq +:+ found +:+ dq +:+ "!".

(** The callback of the second [.map] of [buildRendererInstances],
    applied to a loaded package and to [rendererNames[i]]. *)
Definition instantiate (rendererName : string) (raw : RawRenderer)
    : Completion RendererInstance :=
  let name :=
    match raw_name raw with
    | Some n => n
    | None => rendererName
    end in
  match raw_client raw with
  | JString client =>
      match raw_server raw with
      | JString server =>
          let finish plugin :=
            Normal {| name := name; snowpackPlugin := plugin;
                      client := path_join name client;
                      server := path_join name server;
                      knownEntrypoints := raw_knownEntrypoints raw;
                      jsxImportSource := raw_jsxImportSource raw |} in
          match raw_snowpackPlugin raw with
          | JString snowpackPluginName =>
              match resolveDependency snowpackPluginName with
              | Normal path =>
                  if js_truthy (raw_snowpackPluginOptions raw) then
                    finish (PluginWithOptions path
                              (raw_snowpackPluginOptions raw))
                  else finish (Plugin path)
              | Throw e => Throw e
              end
          | other =>
              if js_truthy other then
                Throw (Error (msg_plugin name (typeof other)))
              else finish NoPlugin
          end
      | _ => Throw (Error (msg_server name))
      end
  | _ => Throw (Error (msg_client name))
  end.

(** [Array.prototype.map] with that callback over the loaded packages:
    the first throw ends it. *)
Fixpoint instantiate_all (loaded : list (string * RawRenderer))
    : Completion (list RendererInstance) :=
  match loaded with
  | [] => Normal []
  | (rendererName, raw) :: rest =>
      match instantiate rendererName raw with
      | Throw e => Throw e
      | Normal i =>
          match instantiate_all rest with
          | Throw e => Throw e
          | Normal l => Normal (i :: l)
          end
      end
  end.

End Build.

Arguments ConfigManager : clear implicits.
Arguments Op : clear implicits.
Arguments state {SnowpackRuntime} c.
Arguments snowpackRuntime {SnowpackRuntime} c.
Arguments rendererNames {SnowpackRuntime} c.
Arguments version {SnowpackRuntime} c.
Arguments astroConfig {SnowpackRuntime} c.
Arguments effects {SnowpackRuntime} c.
Arguments Build_ConfigManager {SnowpackRuntime} state snowpackRuntime
  rendererNames version astroConfig effects.
Arguments setRendererNames {SnowpackRuntime} cfg m.
Arguments create {SnowpackRuntime} cfg.
Arguments set_runtime {SnowpackRuntime} rt m.
Arguments set_state {SnowpackRuntime} s m.
Arguments log {SnowpackRuntime} e m.
Arguments bump {SnowpackRuntime} m.
Arguments markDirty {SnowpackRuntime} m.
Arguments needsUpdate {SnowpackRuntime} m.
Arguments do_importModule {SnowpackRuntime} importModule rt m.
Arguments reload {SnowpackRuntime} loadConfig m.
Arguments update {SnowpackRuntime} loadConfig importModule m.
Arguments OpMarkDirty {SnowpackRuntime}.
Arguments OpUpdate {SnowpackRuntime}.
Arguments OpSetRuntime {SnowpackRuntime} rt.
Arguments op {SnowpackRuntime} loadConfig importModule o m.
Arguments ops {SnowpackRuntime} loadConfig importModule l m.
Arguments versions_used {SnowpackRuntime} m ks.

(** Sample collaborators and packages. *)
Module Samples.

Definition vue_only : AstroConfig :=
  {| projectRoot := "/site/"; renderers := Some ["@astrojs/renderer-vue"] |}.
Definition no_renderers : AstroConfig :=
  {| projectRoot := "/site/"; renderers := None |}.

Definition load_ok (_ : list Effect) (_ _ : string) : Completion AstroConfig :=
  Normal vue_only.
Definition load_fails (_ : list Effect) (_ _ : string)
    : Completion AstroConfig :=
  Throw (Error "cannot read astro.config.mjs").
Definition import_ok (_ : list Effect) (_ : unit) (_ : string)
    : Completion unit :=
  Normal tt.

Definition resolve_here (dep : string) : Completion string :=
  Normal ("/site/node_modules/" +:+ dep).
Definition join_slash (a b : string) : string := a +:+ "/" +:+ b.

Definition good_package : RawRenderer :=
  {| raw_name := None; raw_client := JString "client.js";
     raw_server := JString "server.js";
     raw_snowpackPlugin := JString "@snowpack/plugin-vue";
     raw_snowpackPluginOptions := JUndefined;
     raw_knownEntrypoints := JUndefined; raw_jsxImportSource := JUndefined |}.

Definition no_client_package : RawRenderer :=
  {| raw_name := Some "broken"; raw_client := JUndefined;
     raw_server := JString "server.js"; raw_snowpackPlugin := JUndefined;
     raw_snowpackPluginOptions := JUndefined;
     raw_knownEntrypoints := JUndefined; raw_jsxImportSource := JUndefined |}.

End Samples.

End Config.

(** * Properties *)

Section Facts.
Context {Props Options : Type}.
Variable serialize : Props -> string.
Variable hash_unique : string -> string.
Variables astro astroHtml : Renderer Props Options.

Implicit Types (st : Runtime Props Options) (c : Component) (props : Props).
Implicit Types (children : string) (inst i : RendererInstance Props Options).
Implicit Types (l pre post : list (RendererInstance Props Options)).
Implicit Types (cp : AstroComponentProps) (errs : list JsError).

(** ** Strings *)

Lemma append_cons (a : ascii) (s r : string) :
  String a s +:+ r = String a (s +:+ r).
Proof. reflexivity. Qed.

Lemma append_empty_r (s : string) : s +:+ EmptyString = s.
Proof.
  induction s as [|a s IH]; [done|]. by rewrite append_cons, IH.
Qed.

Lemma prefix_append (p r : string) : String.prefix p (p +:+ r) = true.
Proof.
  induction p as [|a p IH]; [by destruct r|].
  rewrite append_cons. cbn [String.prefix]. by destruct (ascii_dec a a).
Qed.

Lemma occurs_cons (p : string) (a : ascii) (r : string) :
  occurs p (String a r) =
    if String.prefix p (String a r) then true else occurs p r.
Proof. reflexivity. Qed.

Lemma occurs_prefix (p s : string) :
  String.prefix p s = true -> occurs p s = true.
Proof. intros H. destruct s; cbn [occurs]; by rewrite H. Qed.

Lemma occurs_here (p r : string) : occurs p (p +:+ r) = true.
Proof. apply occurs_prefix, prefix_append. Qed.

Lemma occurs_append_r (p a r : string) :
  occurs p r = true -> occurs p (a +:+ r) = true.
Proof.
  intros H. induction a as [|x a IH]; [done|].
  rewrite append_cons, occurs_cons. by destruct (String.prefix _ _).
Qed.

Lemma prefix_append_l (p a r : string) :
  String.prefix p a = true -> String.prefix p (a +:+ r) = true.
Proof.
  revert a. induction p as [|x p IH]; intros a H.
  - by destruct (a +:+ r).
  - destruct a as [|y a]; [done|]. rewrite append_cons.
    cbn [String.prefix] in *. destruct (ascii_dec x y); [by apply IH|done].
Qed.

Lemma occurs_append_l (p a r : string) :
  occurs p a = true -> occurs p (a +:+ r) = true.
Proof.
  induction a as [|x a IH]; intros H.
  - apply occurs_prefix. destruct p; [by destruct r|done].
  - rewrite append_cons, occurs_cons. rewrite occurs_cons in H.
    destruct (String.prefix p (String x a)) eqn:E.
    + apply (prefix_append_l _ _ r) in E. rewrite append_cons in E.
      by rewrite E.
    + destruct (String.prefix p (String x (a +:+ r))); [done|by apply IH].
Qed.

Lemma occurs_middle (p a r : string) : occurs p (a +:+ p +:+ r) = true.
Proof. apply occurs_append_r, occurs_here. Qed.

(** A pattern without the character [ch] cannot match across a [ch]. *)
Lemma prefix_lacks_append (ch : ascii) (p t r : string) :
  lacks ch p = true ->
  String.prefix p (t +:+ String ch r) = String.prefix p t.
Proof.
  revert t. induction p as [|a p IH]; intros t Hp.
  - by destruct t.
  - cbn [lacks] in Hp. destruct (Ascii.eqb a ch) eqn:E; [done|].
    apply Ascii.eqb_neq in E.
    destruct t as [|b t].
    + change (EmptyString +:+ String ch r) with (String ch r).
      cbn [String.prefix]. by destruct (ascii_dec a ch).
    + rewrite append_cons. cbn [String.prefix].
      destruct (ascii_dec a b); [by apply IH|done].
Qed.

Lemma prefix_marker_append (m : Marker) (ch : ascii) (t r : string) :
  String.prefix (marker_text m) (String ch t +:+ String "<" r) =
  String.prefix (marker_text m) (String ch t).
Proof.
  destruct m; cbn [marker_text]; unfold fragment_open, fragment_close;
    rewrite append_cons; cbn [String.prefix];
    (destruct (ascii_dec "<" ch); [|done]);
    by apply prefix_lacks_append.
Qed.

Lemma marker_free_cons (ch : ascii) (t : string) :
  marker_free (String ch t) ->
  String.prefix fragment_open (String ch t) = false /\
  String.prefix fragment_close (String ch t) = false /\
  marker_free t.
Proof.
  unfold marker_free. rewrite !occurs_cons. intros [H1 H2].
  destruct (String.prefix fragment_open _); [done|].
  destruct (String.prefix fragment_close _); done.
Qed.

(** ** The removal of the marker tags *)

Lemma strip_from_0_cons (ch : ascii) (rest : string) :
  strip_from 0 (String ch rest) =
    if String.prefix fragment_open (String ch rest) then strip_from 15 rest
    else if String.prefix fragment_close (String ch rest)
         then strip_from 16 rest
         else String ch (strip_from 0 rest).
Proof. reflexivity. Qed.

Lemma strip_marker (m : Marker) (r : string) :
  strip_from 0 (marker_text m +:+ r) = strip_from 0 r.
Proof.
  destruct m; cbn [marker_text].
  - change (fragment_open +:+ r) with (String "<" ("astro-fragment>" +:+ r)).
    rewrite strip_from_0_cons.
    change (String "<" ("astro-fragment>" +:+ r)) with (fragment_open +:+ r).
    by rewrite prefix_append.
  - change (fragment_close +:+ r) with (String "<" ("/astro-fragment>" +:+ r)).
    rewrite strip_from_0_cons.
    change (String "<" ("/astro-fragment>" +:+ r)) with (fragment_close +:+ r).
    rewrite prefix_append.
    replace (String.prefix fragment_open (fragment_close +:+ r)) with false
      by reflexivity.
    reflexivity.
Qed.

(** A marker-free text in front of a marker tag, or at the end, is kept
    as it is. *)
Lemma strip_text (t r : string) :
  marker_free t ->
  r = EmptyString \/ (exists r', r = String "<" r') ->
  strip_from 0 (t +:+ r) = t +:+ strip_from 0 r.
Proof.
  intros Ht Hr. induction t as [|ch t IH]; [done|].
  apply marker_free_cons in Ht as (Ho & Hc & Ht).
  rewrite append_cons, strip_from_0_cons.
  assert (forall m, String.prefix (marker_text m) (String ch (t +:+ r)) =
                    String.prefix (marker_text m) (String ch t)) as Hm.
  { intros m. destruct Hr as [->|[r' ->]].
    - by rewrite append_empty_r.
    - apply (prefix_marker_append m ch t r'). }
  pose proof (Hm OpenTag) as Ho'. pose proof (Hm CloseTag) as Hc'.
  cbn [marker_text] in Ho', Hc'. rewrite Ho', Hc', Ho, Hc. by rewrite IH.
Qed.

Lemma strip_segments (segs : list (string * Marker)) (last : string) :
  Forall (fun tm => marker_free (fst tm)) segs ->
  marker_free last ->
  strip_fragments (segments segs last) = texts segs last.
Proof.
  intros Hsegs Hlast. unfold strip_fragments.
  induction Hsegs as [|[t m] segs Ht _ IH]; cbn [segments texts].
  - rewrite <- (append_empty_r last) at 1.
    rewrite strip_text; [|done|by left]. apply append_empty_r.
  - rewrite strip_text; [|done|right; destruct m; cbn; eauto].
    by rewrite strip_marker, IH.
Qed.

(** Find [p] inside a nest of appends. *)
Ltac occurs_in :=
  first [ apply occurs_here
        | apply occurs_append_l; occurs_in
        | apply occurs_append_r; occurs_in ].

(** Unfold one layer of the monad. *)
Ltac step :=
  unfold bind, ret, throw, await, cache_get, cache_set, call_check,
    get_rendererInstances; cbn [fst snd].

(** ** The registry scan *)

(** A scan that meets a check answering [true] after adapters that all
    answered [false] or threw. *)
Lemma resolve_loop_match c props children inst post pre errs st :
  Forall (fun i => run_check i c props children <> Normal true) pre ->
  run_check inst c props children = Normal true ->
  resolve_loop (pre ++ inst :: post) errs c props children st =
    (Normal (Some inst),
     {| rendererInstances := rendererInstances st;
        rendererCache := <[c := inst]> (rendererCache st);
        checked := checked st ++ pre ++ [inst] |}).
Proof.
  intros Hpre Hinst. revert errs st.
  induction Hpre as [|i pre Hi _ IH]; intros errs st; cbn [app resolve_loop]; step.
  - rewrite Hinst. reflexivity.
  - destruct (run_check i c props children) as [[|]|e] eqn:E;
      [congruence| |]; rewrite IH; cbn; by rewrite <- app_assoc.
Qed.

(** A scan in which no check answers [true]. *)
Lemma resolve_loop_no_match c props children l errs st :
  Forall (fun i => run_check i c props children <> Normal true) l ->
  resolve_loop l errs c props children st =
    (match errs ++ thrown c props children l with
     | e0 :: _ => Throw e0
     | [] => Normal None
     end,
     {| rendererInstances := rendererInstances st;
        rendererCache := rendererCache st;
        checked := checked st ++ l |}).
Proof.
  intros Hl. revert errs st.
  induction Hl as [|i l Hi _ IH]; intros errs st; cbn [resolve_loop]; step.
  - rewrite !app_nil_r. destruct st; by destruct errs.
  - change (thrown c props children (i :: l)) with
      (match check_error c props children i with
       | Some e => e :: thrown c props children l
       | None => thrown c props children l
       end).
    unfold check_error.
    destruct (run_check i c props children) as [[|]|e] eqn:E;
      [congruence| |]; rewrite IH; cbn; rewrite <- !app_assoc; reflexivity.
Qed.

Lemma resolve_miss c props children st :
  rendererCache st !! c = None ->
  resolveRenderer c props children st =
    resolve_loop (rendererInstances st) [] c props children st.
Proof. intros H. unfold resolveRenderer. step. by rewrite H. Qed.

Lemma resolve_hit c props children st inst :
  rendererCache st !! c = Some inst ->
  resolveRenderer c props children st = (Normal (Some inst), st).
Proof. intros H. unfold resolveRenderer. step. by rewrite H. Qed.

(** The scan never touches the registry, only ever adds the scanned
    component to the cache, and logs a prefix of the registry. *)
Lemma resolve_loop_effect c props children l errs st :
  let '(r, st') := resolve_loop l errs c props children st in
  rendererInstances st' = rendererInstances st /\
  (exists n, checked st' = checked st ++ take n l) /\
  match r with
  | Normal (Some inst) => rendererCache st' = <[c := inst]> (rendererCache st)
  | _ => rendererCache st' = rendererCache st
  end.
Proof.
  revert errs st. induction l as [|i l IH]; intros errs st; cbn [resolve_loop].
  - destruct errs; cbn; (split; [done|split; [exists 0; by rewrite app_nil_r|done]]).
  - step. destruct (run_check i c props children) as [[|]|e].
    + cbn. split; [done|]. split; [by exists 1|done].
    + specialize (IH errs
        {| rendererInstances := rendererInstances st;
           rendererCache := rendererCache st; checked := checked st ++ [i] |}).
      destruct (resolve_loop l errs c props children _) as [r st'].
      cbn in IH. destruct IH as (? & [n Hn] & ?). split; [done|].
      split; [|done]. exists (S n). by rewrite Hn, <- app_assoc.
    + specialize (IH (errs ++ [e])
        {| rendererInstances := rendererInstances st;
           rendererCache := rendererCache st; checked := checked st ++ [i] |}).
      destruct (resolve_loop l _ c props children _) as [r st'].
      cbn in IH. destruct IH as (? & [n Hn] & ?). split; [done|].
      split; [|done]. exists (S n). by rewrite Hn, <- app_assoc.
Qed.

Lemma resolve_effect c props children st :
  let '(r, st') := resolveRenderer c props children st in
  rendererInstances st' = rendererInstances st /\
  (exists n, checked st' = checked st ++ take n (rendererInstances st)) /\
  match r with
  | Normal (Some inst) => rendererCache st' !! c = Some inst
  | _ => True
  end /\
  (forall c' i', rendererCache st !! c' = Some i' ->
                 rendererCache st' !! c' = Some i').
Proof.
  destruct (rendererCache st !! c) as [inst|] eqn:Hc.
  - rewrite (resolve_hit _ _ _ _ _ Hc). split; [done|].
    split; [exists 0; by rewrite app_nil_r|]. done.
  - rewrite (resolve_miss _ _ _ _ Hc).
    pose proof (resolve_loop_effect c props children (rendererInstances st) [] st) as H.
    destruct (resolve_loop _ _ _ _ _ _) as [r st'].
    destruct H as (H1 & H2 & H3). split; [done|]. split; [done|].
    split.
    + destruct r as [[inst|]|]; [|done..]. rewrite H3. apply lookup_insert_eq.
    + intros c' i' Hc'.
      assert (c <> c') by congruence.
      destruct r as [[inst|]|]; rewrite H3; [by rewrite lookup_insert_ne|done..].
Qed.

(** ** What the second stage does to the state *)

Lemma fallback_state c cp st : snd (fallback astroHtml c cp st) = st.
Proof.
  unfold fallback. step. destruct (isCustomElementTag c); cbn; [done|].
  destruct (Nat.eqb _ 2); [|done].
  by destruct (rendererInstances st !! 1).
Qed.

Lemma render_instance_state inst c cp props children st :
  snd (render_instance serialize hash_unique inst c cp props children st) = st.
Proof.
  unfold render_instance. step.
  destruct (renderToStaticMarkup _ _ _ _ _); cbn; [|done].
  destruct (hydrate cp); [|done].
  by destruct (generateHydrateScript _ _ _ _ _).
Qed.

(** Rendering changes the state exactly as its call of
    [resolveRenderer] does. *)
Lemma render_state c cp props chs st :
  snd (render serialize hash_unique astroHtml c cp props chs st) =
  snd (resolveRenderer c props (String.concat nl chs) st).
Proof.
  unfold render. unfold bind at 1.
  destruct (resolveRenderer _ _ _ st) as [[[i|]|e] st1]; cbn [snd]; [| |done].
  - unfold bind, ret. apply render_instance_state.
  - unfold bind.
    pose proof (fallback_state c cp st1) as Hf.
    destruct (fallback astroHtml c cp st1) as [[i|e] st2]; cbn in Hf; subst st2;
      [apply render_instance_state|done].
Qed.

Lemma embed_state c cp props chs st :
  snd (embed serialize hash_unique astroHtml c cp props chs st) = st \/
  snd (embed serialize hash_unique astroHtml c cp props chs st) =
    snd (resolveRenderer c props (String.concat nl chs) st).
Proof.
  unfold embed, __astro_component.
  destruct c as [| |s| |]; try (by left); try (right; apply render_state).
  destruct (negb _); [by left|right; apply render_state].
Qed.

(** The cache only grows: no call removes or replaces an entry. *)
Lemma call_keeps_cached k st c inst :
  rendererCache st !! c = Some inst ->
  rendererCache (call serialize hash_unique astro astroHtml k st) !! c
    = Some inst.
Proof.
  intros Hc. destruct k as [l|c' props children|c' cp props chs]; cbn [call].
  - done.
  - pose proof (resolve_effect c' props children st) as H.
    destruct (resolveRenderer _ _ _ _) as [r st']. cbn. by apply H.
  - destruct (embed_state c' cp props chs st) as [-> | ->]; [done|].
    pose proof (resolve_effect c' props (String.concat nl chs) st) as H.
    destruct (resolveRenderer _ _ _ _) as [r st']. cbn. by apply H.
Qed.

Lemma calls_keep_cached ks st c inst :
  rendererCache st !! c = Some inst ->
  rendererCache (calls serialize hash_unique astro astroHtml ks st) !! c
    = Some inst.
Proof.
  revert st. induction ks as [|k ks IH]; intros st Hc; [done|].
  apply IH. by apply call_keeps_cached.
Qed.

(** ** Resolution *)

(** C1: on a cache miss, when adapter number [k] (counted from 1) is the
    first whose check returns true, resolve runs the checks of the first
    [k] adapters of the registry, in order, and no other; it returns
    adapter [k]'s record and stores it in the cache under the component. *)
Theorem resolve_first_match st c props children k inst :
  rendererCache st !! c = None ->
  0 < k ->
  rendererInstances st !! (k - 1) = Some inst ->
  run_check inst c props children = Normal true ->
  (forall j i, j < k - 1 -> rendererInstances st !! j = Some i ->
               run_check i c props children <> Normal true) ->
  resolveRenderer c props children st =
    (Normal (Some inst),
     {| rendererInstances := rendererInstances st;
        rendererCache := <[c := inst]> (rendererCache st);
        checked := checked st ++ take k (rendererInstances st) |})
  /\ length (take k (rendererInstances st)) = k.
Proof.
  intros Hmiss Hk Hinst Htrue Hbefore.
  destruct k as [|k']; [lia|]. replace (S k' - 1) with k' in * by lia.
  split.
  - rewrite (resolve_miss _ _ _ _ Hmiss).
    rewrite (take_S_r _ _ _ Hinst).
    rewrite <- (take_drop_middle _ _ _ Hinst) at 1.
    apply resolve_loop_match; [|done].
    apply Forall_lookup. intros j i Hj.
    apply lookup_take_Some in Hj as [Hj Hlt]. by apply (Hbefore j).
  - apply lookup_lt_Some in Hinst. rewrite length_take. lia.
Qed.

(** C2: once a resolve call has found an adapter for a component, every
    later resolve call for that component, whatever was called in
    between, returns that adapter and leaves the state, the log of
    checks included, as it found it; the first call ran each check of
    the registry at most once. *)
Theorem resolve_cached_runs_no_check st st1 c props children inst ks props'
    children' :
  resolveRenderer c props children st = (Normal (Some inst), st1) ->
  (exists n, checked st1 = checked st ++ take n (rendererInstances st)) /\
  let st2 := calls serialize hash_unique astro astroHtml ks st1 in
  resolveRenderer c props' children' st2 = (Normal (Some inst), st2).
Proof.
  intros Hfound.
  pose proof (resolve_effect c props children st) as H. rewrite Hfound in H.
  destruct H as (_ & Hlog & Hcached & _). split; [done|].
  cbn zeta. apply resolve_hit. by apply calls_keep_cached.
Qed.

(** C5, as the code has it: on a cache miss, errors thrown by checks are
    swallowed when some check returns true, and resolve returns the
    first such adapter; when no check returns true, resolve throws the
    first error thrown, if any, also when other checks completed, and
    returns undefined only if no check threw. *)
Theorem check_errors_swallowed_only_on_match st c props children :
  rendererCache st !! c = None ->
  (forall pre inst post,
     rendererInstances st = pre ++ inst :: post ->
     Forall (fun i => run_check i c props children <> Normal true) pre ->
     run_check inst c props children = Normal true ->
     fst (resolveRenderer c props children st) = Normal (Some inst)) /\
  (Forall (fun i => run_check i c props children <> Normal true)
     (rendererInstances st) ->
   fst (resolveRenderer c props children st) =
     match thrown c props children (rendererInstances st) with
     | e0 :: _ => Throw e0
     | [] => Normal None
     end).
Proof.
  intros Hmiss. rewrite (resolve_miss _ _ _ _ Hmiss). split.
  - intros pre inst post -> Hpre Hinst.
    by rewrite (resolve_loop_match _ _ _ _ _ _ _ _ Hpre Hinst).
  - intros Hall. by rewrite (resolve_loop_no_match _ _ _ _ _ _ Hall).
Qed.

(** C6: on a cache miss, when the check of every adapter of a non-empty
    registry throws, resolve throws the error of the first adapter,
    after having run every check. *)
Theorem all_checks_throw_first_error st c props children i0 rest e0 :
  rendererCache st !! c = None ->
  rendererInstances st = i0 :: rest ->
  run_check i0 c props children = Throw e0 ->
  Forall (fun i => exists e, run_check i c props children = Throw e) rest ->
  resolveRenderer c props children st =
    (Throw e0,
     {| rendererInstances := rendererInstances st;
        rendererCache := rendererCache st;
        checked := checked st ++ i0 :: rest |}).
Proof.
  intros Hmiss Hreg H0 Hrest.
  rewrite (resolve_miss _ _ _ _ Hmiss), resolve_loop_no_match.
  - rewrite Hreg. unfold thrown. cbn. unfold check_error at 1. by rewrite H0.
  - rewrite Hreg. constructor; [congruence|].
    eapply Forall_impl; [exact Hrest|]. intros i [e He]. congruence.
Qed.

(** ** The registry *)

(** C8, as the code has it: [setRenderers] replaces the registry by the
    self adapter followed by the given adapters and leaves the cache as
    it is, so a component cached under the previous registry still
    resolves to the adapter cached for it, without any check. *)
Theorem setRenderers_keeps_cache st l :
  setRenderers astro l st =
    (Normal tt,
     {| rendererInstances := astroRendererInstance astro :: l;
        rendererCache := rendererCache st;
        checked := checked st |})
  /\ forall c inst props children,
       rendererCache st !! c = Some inst ->
       resolveRenderer c props children (snd (setRenderers astro l st)) =
         (Normal (Some inst), snd (setRenderers astro l st)).
Proof.
  split; [reflexivity|]. intros c inst props children Hc.
  by apply resolve_hit.
Qed.

(** ** The entry point *)


Lemma resolve_loop_declined c props children l st :
  Forall (fun i => run_check i c props children = Normal false) l ->
  resolve_loop l [] c props children st =
    (Normal None,
     {| rendererInstances := rendererInstances st;
        rendererCache := rendererCache st;
        checked := checked st ++ l |}).
Proof.
  intros Hl. revert st.
  induction Hl as [|i l Hi _ IH]; intros st; cbn [resolve_loop]; step.
  - rewrite app_nil_r. by destruct st.
  - rewrite Hi, IH. cbn. by rewrite <- app_assoc.
Qed.


Lemma with_polyfills inst (html : string) :
  match polyfills inst with
  | [] => html
  | _ :: _ => html +:+ polyfillScripts (polyfills inst)
  end = html +:+ polyfillScripts (polyfills inst).
Proof.
  destruct (polyfills inst); [|done]. symmetry. apply append_empty_r.
Qed.

(** C3: when resolution yields no adapter and does not throw, the second
    stage goes on (a) with the plain-HTML adapter if the component is a
    string with a hyphen; (b) otherwise with the adapter at index 1 if
    the registry has exactly two entries; (c) otherwise it throws the
    "No renderer found" error, whose message carries the component's
    name, which is [displayName] whenever that is set. *)
Theorem fallback_order c cp props chs st st1 :
  resolveRenderer c props (String.concat nl chs) st = (Normal None, st1) ->
  let children := String.concat nl chs in
  let go := render serialize hash_unique astroHtml c cp props chs st in
  let go_with i :=
    render_instance serialize hash_unique i c cp props children st1 in
  (forall s, c = CString s -> has_hyphen s = true ->
     go = go_with (astroHtmlRendererInstance astroHtml)) /\
  ((forall s, c = CString s -> has_hyphen s = false) ->
   forall self user, rendererInstances st = [self; user] ->
     go = go_with user) /\
  ((forall s, c = CString s -> has_hyphen s = false) ->
   length (rendererInstances st) <> 2 ->
     go = (Throw (Error (msg_no_renderer (getComponentName c cp))), st1) /\
     occurs (getComponentName c cp)
       (msg_no_renderer (getComponentName c cp)) = true /\
     (forall d, displayName cp = Some d -> d <> EmptyString ->
        getComponentName c cp = d)).
Proof.
  intros Hres children go go_with.
  assert (rendererInstances st1 = rendererInstances st) as Hreg.
  { pose proof (resolve_effect c props (String.concat nl chs) st) as H.
    rewrite Hres in H. apply H. }
  assert (forall b, (forall s, c = CString s -> has_hyphen s = b) ->
                    (exists s, c = CString s) \/ b = false ->
                    isCustomElementTag c = b) as Htag.
  { intros b Hb Hc. destruct c; cbn; try (by apply Hb).
    all: destruct Hc as [[s Hs]|Hc]; by try discriminate. }
  assert (go = bind (fallback astroHtml c cp)
                 (fun i => render_instance serialize hash_unique i c cp props
                             children) st1) as Hgo.
  { subst go children. unfold render. cbn zeta. unfold bind at 1.
    by rewrite Hres. }
  clearbody go. subst go go_with children. unfold fallback. step.
  split; [|split].
  - intros s -> Hs. cbn. by rewrite Hs.
  - intros Hnot self user Hl. rewrite (Htag false Hnot) by (by right).
    cbn. by rewrite Hreg, Hl.
  - intros Hnot Hlen. rewrite (Htag false Hnot) by (by right).
    cbn. rewrite Hreg. apply Nat.eqb_neq in Hlen. rewrite Hlen.
    split; [done|]. split; [apply occurs_middle|].
    intros d Hd Hne. unfold getComponentName. rewrite Hd.
    by destruct d.
Qed.

(** C4: for a null or undefined component, and for a string without a
    hyphen, the first stage throws an error whose message contains the
    display name given in the component props; no second stage exists,
    so the whole call leaves the state as it is: nothing is resolved and
    no check is run. *)
Theorem invalid_component_fails_fast c cp :
  c = CNull \/ c = CUndefined \/
    (exists s, c = CString s /\ has_hyphen s = false) ->
  exists msg,
    __astro_component serialize hash_unique astroHtml c cp = Throw (Error msg)
    /\ occurs (tpl_opt (displayName cp)) msg = true
    /\ forall props chs st,
         embed serialize hash_unique astroHtml c cp props chs st =
           (Throw (Error msg), st).
Proof.
  intros [->|[->|[s [-> Hs]]]].
  - exists (msg_nullish cp "null"). repeat split. apply occurs_middle.
  - exists (msg_nullish cp "undefined"). repeat split. apply occurs_middle.
  - exists (msg_unable cp).
    unfold embed, __astro_component. cbn. rewrite Hs. cbn.
    repeat split. apply occurs_middle.
Qed.

(** C7, as the code has it: a non-hydrated render returns the adapter's
    markup (with the polyfill scripts appended) after one scan from the
    left that drops each exact [<astro-fragment>] and
    [</astro-fragment>] and keeps every other character: when the markup
    consists of such tags between texts that contain neither, the output
    is those texts, in order, unchanged.  Tags in another letter case or
    with attributes are text like any other. *)
Theorem static_output_drops_exact_markers inst c cp props children st html
    segs last :
  hydrate cp = None ->
  renderToStaticMarkup (renderer inst) c props children (options inst)
    = Normal html ->
  html +:+ polyfillScripts (polyfills inst) = segments segs last ->
  Forall (fun tm => marker_free (fst tm)) segs ->
  marker_free last ->
  render_instance serialize hash_unique inst c cp props children st =
    (Normal (texts segs last), st).
Proof.
  intros Hh Hr Hm Hsegs Hlast. unfold render_instance. step.
  rewrite Hr. unfold ret. cbv beta iota zeta.
  rewrite Hh, with_polyfills, Hm. by rewrite strip_segments.
Qed.

(** C9, as the code has it: a hydrated render returns the root element
    [<astro-root uid=...>] with the hash of the markup as uid around the
    markup, a newline, and the module script that imports [setup] from
    [/_astro_frontend/hydrate/<mode>.js] and calls it with the same id
    and an async callback.  The callback holds the serialized props only
    when the adapter has a non-empty client source; without one it only
    imports the component URL and returns a no-op.  The text of the
    output is spelled out in full. *)
Theorem hydrated_output inst c cp props children st html mode :
  hydrate cp = Some mode ->
  renderToStaticMarkup (renderer inst) c props children (options inst)
    = Normal html ->
  let markup := html +:+ polyfillScripts (polyfills inst) in
  let astroId := hash_unique markup in
  let modeName :=
    match mode with
    | Load => "load"
    | Idle => "idle"
    | Visible => "visible"
    end in
  let url :=
    match componentUrl cp with
    | Some u => u
    | None => "undefined"
    end in
  let root :=
    "<astro-root uid=" +:+ dq +:+ astroId +:+ dq +:+ ">" +:+ markup +:+
    "</astro-root>" in
  let out callback :=
    root +:+ nl +:+
    "<script type=" +:+ dq +:+ "module" +:+ dq +:+ ">" +:+ nl +:+
    "import setup from '/_astro_frontend/hydrate/" +:+ modeName +:+ ".js';" +:+
    nl +:+
    "setup(" +:+ dq +:+ astroId +:+ dq +:+ ", async () => {" +:+ nl +:+
    "  " +:+ callback +:+ nl +:+
    "});" +:+ nl +:+
    "</script>" in
  let go := render_instance serialize hash_unique inst c cp props children st in
  (source inst = None \/ source inst = Some EmptyString ->
     go = (Normal (out ("await import(" +:+ dq +:+ url +:+ dq +:+ ");" +:+
                        nl +:+ "  return () => {};")), st)) /\
  (forall src ce,
     source inst = Some src -> src <> EmptyString ->
     componentExport cp = Some ce ->
     let callback :=
       "const [{ " +:+ value ce +:+
       ": Component }, { default: hydrate }] = await Promise.all([import(" +:+
       dq +:+ url +:+ dq +:+ "), import(" +:+ dq +:+ src +:+ dq +:+ ")]);" +:+
       nl +:+
       "  return (el, children) => hydrate(el)(Component, " +:+
       serialize props +:+ ", children);" in
     go = (Normal (out callback), st) /\
     occurs (serialize props) (out callback) = true).
Proof.
  intros Hh Hr markup astroId modeName url root out go. subst go.
  unfold render_instance. step. rewrite Hr. unfold ret. cbv beta iota zeta.
  rewrite Hh, !with_polyfills. fold markup. fold astroId.
  unfold generateHydrateScript. rewrite Hh.
  assert (tpl_opt (tpl_mode <$> Some mode) = modeName) as ->
    by (by destruct mode).
  assert (tpl_opt (componentUrl cp) = url) as -> by done.
  split.
  - intros [->| ->]; reflexivity.
  - intros src ce -> Hsrc ->. cbn zeta.
    assert (truthy (Some src) = true) as -> by (by destruct src).
    split; [reflexivity|]. unfold out. occurs_in.
Qed.



End Facts.

(** * The properties on the sample adapters *)

Section OnSamples.
Import Samples.

Lemma resolve_first_match_witness :
  resolveRenderer Counter [] EmptyString
    (with_registry [thrower1; accepter; thrower2]) =
    (Normal (Some accepter),
     {| rendererInstances := [astroRendererInstance self_r; thrower1; accepter;
                              thrower2];
        rendererCache := {[ Counter := accepter ]};
        checked := [astroRendererInstance self_r; thrower1; accepter] |})
  /\ length (take 3 (rendererInstances
                       (with_registry [thrower1; accepter; thrower2]))) = 3.
Proof.
  apply (resolve_first_match (with_registry [thrower1; accepter; thrower2])
           Counter [] EmptyString 3 accepter).
  - reflexivity.
  - lia.
  - reflexivity.
  - reflexivity.
  - intros j i Hj Hi.
    destruct j as [|[|j]]; [| |lia]; cbn in Hi; injection Hi as <-; discriminate.
Defined.

Lemma resolve_cached_runs_no_check_witness :
  let st := with_registry [thrower1; accepter; thrower2] in
  let st1 := snd (resolveRenderer Counter [] EmptyString st) in
  (exists n, checked st1 = checked st ++ take n (rendererInstances st)) /\
  let st2 :=
    calls sample_serialize sample_hash self_r html_r
      [CallSetRenderers [decliner];
       CallEmbed widget (static_props "W") [] []] st1 in
  resolveRenderer Counter [("count", "2")] "<b>x</b>" st2 =
    (Normal (Some accepter), st2).
Proof.
  intros st st1.
  apply (resolve_cached_runs_no_check sample_serialize sample_hash self_r
           html_r st st1 Counter [] EmptyString accepter).
  reflexivity.
Defined.

Lemma fallback_order_witness :
  let st := with_registry [decliner] in
  let st1 := snd (resolveRenderer Counter [] EmptyString st) in
  render sample_serialize sample_hash html_r Counter (static_props "Counter")
    [] [] st =
  render_instance sample_serialize sample_hash decliner Counter
    (static_props "Counter") [] EmptyString st1.
Proof.
  intros st st1.
  refine (proj1 (proj2 (fallback_order sample_serialize sample_hash html_r
                          Counter (static_props "Counter") [] [] st st1
                          eq_refl))
            _ (astroRendererInstance self_r) decliner eq_refl).
  intros s Hs. discriminate Hs.
Defined.

Lemma invalid_component_fails_fast_witness :
  exists msg,
    __astro_component sample_serialize sample_hash html_r CNull
      (static_props "Counter") = Throw (Error msg)
    /\ occurs (tpl_opt (displayName (static_props "Counter"))) msg = true
    /\ forall props chs st,
         embed sample_serialize sample_hash html_r CNull
           (static_props "Counter") props chs st = (Throw (Error msg), st).
Proof.
  apply (invalid_component_fails_fast sample_serialize sample_hash html_r
           CNull (static_props "Counter")).
  left. reflexivity.
Defined.

Lemma check_errors_swallowed_only_on_match_witness :
  fst (resolveRenderer Counter [] EmptyString
         (with_registry [thrower1; decliner])) = Throw boom1.
Proof.
  apply (check_errors_swallowed_only_on_match
           (with_registry [thrower1; decliner]) Counter [] EmptyString).
  - reflexivity.
  - repeat constructor; discriminate.
Defined.

Lemma all_checks_throw_first_error_witness :
  let st := snd (setRenderers (stub (Throw boom1) "self") [thrower2] initial) in
  resolveRenderer Counter [] EmptyString st =
    (Throw boom1,
     {| rendererInstances := rendererInstances st;
        rendererCache := rendererCache st;
        checked := checked st ++
          [astroRendererInstance (stub (Throw boom1) "self"); thrower2] |}).
Proof.
  intros st.
  apply (all_checks_throw_first_error st Counter [] EmptyString
           (astroRendererInstance (stub (Throw boom1) "self")) [thrower2] boom1).
  - reflexivity.
  - reflexivity.
  - reflexivity.
  - repeat constructor. by exists boom2.
Defined.

Lemma static_output_drops_exact_markers_witness :
  render_instance sample_serialize sample_hash
    (adapter None (Normal true)
       "<astro-fragment><p>a</p><ASTRO-FRAGMENT></astro-fragment>")
    Counter (static_props "Counter") [] EmptyString initial =
    (Normal "<p>a</p><ASTRO-FRAGMENT>", initial).
Proof.
  apply (static_output_drops_exact_markers sample_serialize sample_hash
           (adapter None (Normal true)
              "<astro-fragment><p>a</p><ASTRO-FRAGMENT></astro-fragment>")
           Counter (static_props "Counter") [] EmptyString initial
           "<astro-fragment><p>a</p><ASTRO-FRAGMENT></astro-fragment>"
           [(EmptyString, OpenTag); ("<p>a</p><ASTRO-FRAGMENT>", CloseTag)]
           EmptyString).
  - reflexivity.
  - reflexivity.
  - reflexivity.
  - repeat constructor.
  - split; reflexivity.
Defined.

Lemma setRenderers_keeps_cache_witness :
  let st := snd (resolveRenderer Counter [] EmptyString
                   (with_registry [accepter])) in
  resolveRenderer Counter [] EmptyString
    (snd (setRenderers self_r [decliner] st)) =
    (Normal (Some accepter), snd (setRenderers self_r [decliner] st)).
Proof.
  intros st.
  apply (proj2 (setRenderers_keeps_cache self_r st [decliner])).
  reflexivity.
Defined.

Lemma hydrated_output_witness :
  render_instance sample_serialize sample_hash accepter Counter
    (hydrated_props "Counter" Visible "/c.js" "Counter") [("count", "1")]
    EmptyString initial =
    (Normal
       (("<astro-root uid=" +:+ dq +:+ "Z1x9" +:+ dq +:+
         "><p>yes</p></astro-root>") +:+ nl +:+
        "<script type=" +:+ dq +:+ "module" +:+ dq +:+ ">" +:+ nl +:+
        "import setup from '/_astro_frontend/hydrate/visible.js';" +:+ nl +:+
        "setup(" +:+ dq +:+ "Z1x9" +:+ dq +:+ ", async () => {" +:+ nl +:+
        "  const [{ Counter: Component }, { default: hydrate }] = " +:+
        "await Promise.all([import(" +:+ dq +:+ "/c.js" +:+ dq +:+
        "), import(" +:+ dq +:+ "/r/yes.js" +:+ dq +:+ ")]);" +:+ nl +:+
        "  return (el, children) => hydrate(el)(Component, {count: 1}, " +:+
        "children);" +:+ nl +:+
        "});" +:+ nl +:+
        "</script>"),
     initial).
Proof.
  refine (eq_trans
            (proj1 (proj2 (hydrated_output sample_serialize sample_hash
                             accepter Counter
                             (hydrated_props "Counter" Visible "/c.js" "Counter")
                             [("count", "1")] EmptyString initial "<p>yes</p>"
                             Visible eq_refl eq_refl)
                      "/r/yes.js" {| value := "Counter"; namespace := None |}
                      eq_refl _ eq_refl))
            _).
  - discriminate.
  - vm_compute. reflexivity.
Defined.


(** ** Where the code departs from the stated behaviour *)

(** C5: the self adapter and [decliner] both complete with [false], one
    other check throws, and resolve throws that error. *)
Lemma completed_check_does_not_swallow :
  let st := with_registry [thrower1; decliner] in
  rendererCache st !! Counter = None /\
  rendererInstances st = [astroRendererInstance self_r; thrower1; decliner] /\
  run_check (astroRendererInstance self_r) Counter [] EmptyString
    = Normal false /\
  run_check thrower1 Counter [] EmptyString = Throw boom1 /\
  run_check decliner Counter [] EmptyString = Normal false /\
  fst (resolveRenderer Counter [] EmptyString st) = Throw boom1.
Proof. repeat split. Qed.

(** C7: a non-hydrated render whose output is, or still contains, a
    marker tag: one left by the single scan, and one written in capitals. *)
Lemma static_output_can_hold_marker :
  fst (sembed Counter (static_props "Counter") [] []
         (with_registry [nested])) = Normal "<astro-fragment>hi"
  /\ occurs fragment_open "<astro-fragment>hi" = true
  /\ fst (sembed Counter (static_props "Counter") [] []
            (with_registry [shouting]))
       = Normal "<ASTRO-FRAGMENT>hi</ASTRO-FRAGMENT>".
Proof. repeat split. Qed.

(** C8: an adapter cached under one registry is still in the cache, and
    still returned by resolve, after [setRenderers] installed a registry
    that does not contain it. *)
Lemma stale_cache_survives_setRenderers :
  let st := snd (resolveRenderer Counter [] EmptyString
                   (with_registry [accepter])) in
  let st' := snd (setRenderers self_r [decliner] st) in
  rendererInstances st' = [astroRendererInstance self_r; decliner] /\
  rendererCache st' !! Counter = Some accepter /\
  fst (resolveRenderer Counter [] EmptyString st') = Normal (Some accepter).
Proof. repeat split. Qed.

(** C9: a hydrated custom element rendered by the plain-HTML adapter,
    which has no client source: the script, given in full, does not hold
    the props. *)
Lemma hydrated_output_without_props :
  let out :=
    ("<astro-root uid=" +:+ dq +:+ "Z1x9" +:+ dq +:+
     "><my-widget></my-widget></astro-root>") +:+ nl +:+
    "<script type=" +:+ dq +:+ "module" +:+ dq +:+ ">" +:+ nl +:+
    "import setup from '/_astro_frontend/hydrate/visible.js';" +:+ nl +:+
    "setup(" +:+ dq +:+ "Z1x9" +:+ dq +:+ ", async () => {" +:+ nl +:+
    "  await import(" +:+ dq +:+ "/w.js" +:+ dq +:+ ");" +:+ nl +:+
    "  return () => {};" +:+ nl +:+
    "});" +:+ nl +:+
    "</script>" in
  fst (sembed widget (hydrated_props "W" Visible "/w.js" "default")
         [("count", "1")] [] (with_registry [decliner])) = Normal out
  /\ sample_serialize [("count", "1")] = "{count: 1}"
  /\ occurs "{count: 1}" out = false
  /\ occurs "count" out = false.
Proof. cbv zeta. repeat split; vm_compute; reflexivity. Qed.

End OnSamples.

(** * Further properties of the component module *)

Section MoreFacts.
Context {Props Options : Type}.
Variable serialize : Props -> string.
Variable hash_unique : string -> string.
Variables astro astroHtml : Renderer Props Options.

Implicit Types (st : Runtime Props Options) (c : Component) (props : Props).
Implicit Types (children : string) (inst i : RendererInstance Props Options).
Implicit Types (l : list (RendererInstance Props Options)).
Implicit Types (cp : AstroComponentProps) (errs : list JsError).

Ltac run :=
  unfold bind, ret, throw, await, cache_get, cache_set, call_check,
    get_rendererInstances; cbn [fst snd].

(** An adapter returned by the scan is one of the scanned adapters, and
    its check answered [true]. *)
Lemma resolve_loop_found c props children l errs st st' inst :
  resolve_loop l errs c props children st = (Normal (Some inst), st') ->
  inst ∈ l /\ run_check inst c props children = Normal true.
Proof.
  revert errs st. induction l as [|i l IH]; intros errs st; cbn [resolve_loop].
  - destruct errs; cbn; unfold throw, ret; congruence.
  - run. destruct (run_check i c props children) as [[|]|e] eqn:E.
    + cbn. intros [= <- _]. split; [by left|done].
    + intros H. apply IH in H as [H1 H2]. split; [by right|done].
    + intros H. apply IH in H as [H1 H2]. split; [by right|done].
Qed.

(** [resolveRenderer], whatever its outcome: the registry is left as it
    is; the checks run are those of the first [n] adapters of the
    registry, in order, for some [n] up to its length; no cache entry of
    another component changes; and an entry for the component itself is
    either the one that was there or an adapter of the registry whose
    check just answered [true]. *)
Theorem resolve_footprint st c props children :
  let '(_, st') := resolveRenderer c props children st in
  rendererInstances st' = rendererInstances st /\
  (exists n, n <= length (rendererInstances st) /\
             checked st' = checked st ++ take n (rendererInstances st)) /\
  (forall c', c' <> c -> rendererCache st' !! c' = rendererCache st !! c') /\
  (forall i, rendererCache st' !! c = Some i ->
     rendererCache st !! c = Some i \/
     (i ∈ rendererInstances st /\ run_check i c props children = Normal true)).
Proof.
  destruct (rendererCache st !! c) as [inst|] eqn:Hc.
  - rewrite (resolve_hit _ _ _ _ _ Hc).
    split; [done|]. split; [exists 0; split; [lia|by rewrite app_nil_r]|].
    split; [done|]. intros i Hi. left. congruence.
  - rewrite (resolve_miss _ _ _ _ Hc).
    pose proof (resolve_loop_effect c props children (rendererInstances st) []
                  st) as H.
    pose proof (resolve_loop_found c props children (rendererInstances st) []
                  st) as Hf.
    destruct (resolve_loop _ _ _ _ _ _) as [r st'].
    destruct H as (H1 & [n Hn] & H3). split; [done|]. split.
    { exists (n `min` length (rendererInstances st)). split; [lia|].
      rewrite Hn. f_equal.
      destruct (decide (n <= length (rendererInstances st))).
      - by rewrite Nat.min_l.
      - rewrite Nat.min_r by lia. rewrite !take_ge; [done|lia..]. }
    split.
    + intros c' Hne. destruct r as [[inst|]|]; rewrite H3; [|done..].
      by rewrite lookup_insert_ne.
    + intros i Hi. destruct r as [[inst|]|]; rewrite H3 in Hi;
        [|congruence..].
      rewrite lookup_insert_eq in Hi. injection Hi as <-.
      right. by eapply Hf.
Qed.

(** When the component is not cached and every check answers [false],
    resolve returns undefined after having run every check of the
    registry once, in order, and caches nothing. *)
Theorem resolve_all_decline st c props children :
  rendererCache st !! c = None ->
  Forall (fun i => run_check i c props children = Normal false)
    (rendererInstances st) ->
  resolveRenderer c props children st =
    (Normal None,
     {| rendererInstances := rendererInstances st;
        rendererCache := rendererCache st;
        checked := checked st ++ rendererInstances st |}).
Proof.
  intros Hmiss Hall. rewrite (resolve_miss _ _ _ _ Hmiss).
  by apply resolve_loop_declined.
Qed.

Lemma call_log_grows k st :
  checked st `prefix_of`
    checked (call serialize hash_unique astro astroHtml k st).
Proof.
  assert (forall c props children,
            checked st `prefix_of`
              checked (snd (resolveRenderer c props children st))) as Hres.
  { intros c props children.
    pose proof (resolve_effect c props children st) as H.
    destruct (resolveRenderer _ _ _ _) as [r st'].
    destruct H as (_ & [n Hn] & _). cbn. rewrite Hn. by eexists. }
  destruct k as [l|c props children|c cp props chs]; cbn [call].
  - done.
  - apply Hres.
  - destruct (embed_state serialize hash_unique astroHtml c cp props chs st)
      as [-> | ->]; [done|apply Hres].
Qed.

(** Over any sequence of calls into the module the cache only gains
    entries, none is removed or replaced, and the log of checks only
    grows at its end. *)
Theorem cache_and_log_only_grow ks st :
  rendererCache st ⊆
    rendererCache (calls serialize hash_unique astro astroHtml ks st) /\
  checked st `prefix_of`
    checked (calls serialize hash_unique astro astroHtml ks st).
Proof.
  split.
  - apply map_subseteq_spec. intros c i Hc. by apply calls_keep_cached.
  - revert st. induction ks as [|k ks IH]; intros st; [done|].
    cbn. etrans; [apply call_log_grows|apply IH].
Qed.

Lemma call_keeps_accepted k st :
  (forall c i, rendererCache st !! c = Some i ->
     exists props children, run_check i c props children = Normal true) ->
  forall c i,
    rendererCache (call serialize hash_unique astro astroHtml k st) !! c
      = Some i ->
    exists props children, run_check i c props children = Normal true.
Proof.
  intros Hst.
  assert (forall c0 props children c i,
            rendererCache (snd (resolveRenderer c0 props children st)) !! c
              = Some i ->
            exists props children, run_check i c props children = Normal true)
    as Hres.
  { intros c0 props children c i.
    destruct (rendererCache st !! c0) as [inst|] eqn:Hc0.
    - rewrite (resolve_hit _ _ _ _ _ Hc0). cbn. apply Hst.
    - rewrite (resolve_miss _ _ _ _ Hc0).
      pose proof (resolve_loop_effect c0 props children (rendererInstances st)
                    [] st) as H.
      pose proof (resolve_loop_found c0 props children (rendererInstances st)
                    [] st) as Hf.
      destruct (resolve_loop _ _ _ _ _ _) as [r st'].
      destruct H as (_ & _ & H3). cbn.
      destruct r as [[inst|]|]; rewrite H3; [|apply Hst..].
      destruct (decide (c0 = c)) as [->|Hne].
      + rewrite lookup_insert_eq. intros [= <-].
        exists props, children. by eapply Hf.
      + rewrite lookup_insert_ne by done. apply Hst. }
  destruct k as [l|c0 props children|c0 cp props chs]; cbn [call].
  - apply Hst.
  - apply Hres.
  - destruct (embed_state serialize hash_unique astroHtml c0 cp props chs st)
      as [-> | ->]; [apply Hst|apply Hres].
Qed.

(** Starting from the freshly loaded module, whatever is called, an
    adapter is only ever cached for a component its check accepted. *)
Theorem cache_holds_only_accepted ks c i :
  rendererCache
    (calls serialize hash_unique astro astroHtml ks initial) !! c = Some i ->
  exists props children, run_check i c props children = Normal true.
Proof.
  revert c i.
  assert (forall st,
    (forall c i, rendererCache st !! c = Some i ->
       exists props children, run_check i c props children = Normal true) ->
    forall c i,
      rendererCache (calls serialize hash_unique astro astroHtml ks st) !! c
        = Some i ->
      exists props children, run_check i c props children = Normal true) as H.
  { induction ks as [|k ks IH]; intros st Hst; [done|].
    cbn. apply IH. by apply call_keeps_accepted. }
  apply H. intros c i Hc. cbn in Hc. by rewrite lookup_empty in Hc.
Qed.

(** Before [setRenderers] has ever been called the registry is empty:
    resolve returns undefined without running any check; a custom
    element is rendered by the plain-HTML adapter and any other
    component fails with the "No renderer found" error. *)
Theorem nothing_installed c cp props chs :
  resolveRenderer c props (String.concat nl chs) (@initial Props Options) =
    (Normal None, initial) /\
  (isCustomElementTag c = true ->
   render serialize hash_unique astroHtml c cp props chs initial =
     render_instance serialize hash_unique (astroHtmlRendererInstance astroHtml)
       c cp props (String.concat nl chs) initial) /\
  (isCustomElementTag c = false ->
   render serialize hash_unique astroHtml c cp props chs initial =
     (Throw (Error (msg_no_renderer (getComponentName c cp))), initial)).
Proof.
  assert (resolveRenderer c props (String.concat nl chs)
            (@initial Props Options) = (Normal None, initial)) as Hres.
  { unfold resolveRenderer. run. cbn. by rewrite lookup_empty. }
  split; [done|].
  unfold render. cbn zeta. unfold bind at 1. rewrite Hres.
  unfold bind at 1. unfold fallback. run.
  split; intros ->; reflexivity.
Qed.

(** After [setRenderers l], for a component that is not a custom element
    and that every adapter declines: if [l] is a single adapter, the
    render goes on with that adapter, which sits at index 1 behind the
    self adapter; with no adapter or more than one it fails with the
    "No renderer found" error. *)
Theorem sole_renderer_is_the_default st l c cp props chs :
  rendererCache st !! c = None ->
  isCustomElementTag c = false ->
  Forall (fun i => run_check i c props (String.concat nl chs) = Normal false)
    (astroRendererInstance astro :: l) ->
  let children := String.concat nl chs in
  let st0 := snd (setRenderers astro l st) in
  let st1 :=
    {| rendererInstances := astroRendererInstance astro :: l;
       rendererCache := rendererCache st;
       checked := checked st ++ astroRendererInstance astro :: l |} in
  let go := render serialize hash_unique astroHtml c cp props chs st0 in
  (forall user, l = [user] ->
     go = render_instance serialize hash_unique user c cp props children st1)
  /\ (length l <> 1 ->
      go = (Throw (Error (msg_no_renderer (getComponentName c cp))), st1)).
Proof.
  intros Hmiss Htag Hall children st0 st1 go.
  assert (resolveRenderer c props children st0 = (Normal None, st1)) as Hres.
  { unfold st0. cbn [setRenderers snd].
    rewrite resolve_miss by done. by rewrite resolve_loop_declined. }
  assert (go = bind (fallback astroHtml c cp)
                 (fun i => render_instance serialize hash_unique i c cp props
                             children) st1) as ->.
  { unfold go, render. cbn zeta. unfold bind at 1. fold children.
    by rewrite Hres. }
  unfold fallback. run. rewrite Htag. cbn. split.
  - by intros user ->.
  - intros Hlen. destruct l as [|u [|u' l']]; cbn in *; done.
Qed.

(** Once an adapter has been chosen, a failure of its render is the
    failure of the whole render, with the adapter's own error; no other
    adapter is tried, and the adapter stays cached for the component. *)
Theorem render_failure_is_final st st1 c cp props chs inst e :
  resolveRenderer c props (String.concat nl chs) st
    = (Normal (Some inst), st1) ->
  renderToStaticMarkup (renderer inst) c props (String.concat nl chs)
    (options inst) = Throw e ->
  render serialize hash_unique astroHtml c cp props chs st = (Throw e, st1) /\
  rendererCache st1 !! c = Some inst /\
  resolveRenderer c props (String.concat nl chs) st1
    = (Normal (Some inst), st1).
Proof.
  intros Hres Hr.
  assert (rendererCache st1 !! c = Some inst) as Hc.
  { pose proof (resolve_effect c props (String.concat nl chs) st) as H.
    rewrite Hres in H. by destruct H as (_ & _ & H & _). }
  split; [|split; [done|by apply resolve_hit]].
  unfold render. cbn zeta. unfold bind at 1. rewrite Hres.
  unfold render_instance. run. by rewrite Hr.
Qed.

(** The first stage throws exactly for null, undefined and strings
    without a hyphen; for every other component it returns the render
    closure. *)
Theorem first_stage_rejects_exactly c cp :
  ((exists e, __astro_component serialize hash_unique astroHtml c cp = Throw e)
   <-> c = CNull \/ c = CUndefined \/
       (exists s, c = CString s /\ has_hyphen s = false)) /\
  ((forall e, __astro_component serialize hash_unique astroHtml c cp
              <> Throw e) ->
   __astro_component serialize hash_unique astroHtml c cp =
     Normal (render serialize hash_unique astroHtml c cp)).
Proof.
  unfold __astro_component. destruct c as [| |s|r d n|r t]; cbn.
  - split; [split; eauto|]. intros H. by destruct (H _ eq_refl).
  - split; [split; eauto|]. intros H. by destruct (H _ eq_refl).
  - destruct (has_hyphen s) eqn:Hs; cbn.
    + split; [|done]. split; [by intros [e He]|].
      intros [|[|[s' [[= <-] Hs']]]]; congruence.
    + split; [split; eauto 6|]. intros H. by destruct (H _ eq_refl).
  - split; [|done]. split; [by intros [e He]|].
    intros [|[|[s' [? _]]]]; congruence.
  - split; [|done]. split; [by intros [e He]|].
    intros [|[|[s' [? _]]]]; congruence.
Qed.

Lemma has_hyphen_split (s : string) :
  has_hyphen s = true <-> exists a b, s = a +:+ "-" +:+ b.
Proof.
  split.
  - induction s as [|x s IH]; cbn; [done|].
    destruct (Ascii.eqb x "-") eqn:E.
    + apply Ascii.eqb_eq in E as ->. intros _. by exists EmptyString, s.
    + intros H. destruct (IH H) as (a & b & ->). by exists (String x a), b.
  - intros (a & b & ->). induction a as [|x a IH]; [done|].
    change (String x a +:+ "-" +:+ b) with (String x (a +:+ "-" +:+ b)).
    cbn [has_hyphen]. by destruct (Ascii.eqb x "-").
Qed.

(** [isCustomElementTag] holds exactly of the strings that have a
    hyphen somewhere; the empty string, strings without a hyphen and
    values that are not strings are not custom element tags. *)
Theorem custom_element_tags c :
  isCustomElementTag c = true <-> exists a b, c = CString (a +:+ "-" +:+ b).
Proof.
  split.
  - destruct c; cbn; try done. intros H.
    apply has_hyphen_split in H as (a & b & ->). eauto.
  - intros (a & b & ->). cbn. apply has_hyphen_split. eauto.
Qed.

(** ** More on the removal of the marker tags *)

Lemma strip_from_length (k : nat) (s : string) :
  String.length (strip_from k s) <= String.length s.
Proof.
  revert k. induction s as [|ch s IH]; intros k; [done|].
  destruct k as [|k].
  - rewrite strip_from_0_cons.
    destruct (String.prefix fragment_open _);
      [|destruct (String.prefix fragment_close _)]; cbn [String.length].
    + specialize (IH 15). lia.
    + specialize (IH 16). lia.
    + specialize (IH 0). lia.
  - cbn [strip_from String.length]. specialize (IH k). lia.
Qed.

(** The removal leaves a markup as it is exactly when the markup
    contains neither marker tag; a markup that contains one always comes
    out strictly shorter. *)
Theorem strip_fixes_exactly_marker_free (html : string) :
  (strip_fragments html = html <-> marker_free html) /\
  (occurs fragment_open html = true \/ occurs fragment_close html = true ->
   String.length (strip_fragments html) < String.length html).
Proof.
  unfold strip_fragments. split; [split|].
  - induction html as [|ch s IH]; [done|].
    rewrite strip_from_0_cons. unfold marker_free. rewrite !occurs_cons.
    destruct (String.prefix fragment_open (String ch s)).
    { intros H. pose proof (strip_from_length 15 s) as Hl.
      rewrite H in Hl. cbn [String.length] in Hl. lia. }
    destruct (String.prefix fragment_close (String ch s)).
    { intros H. pose proof (strip_from_length 16 s) as Hl.
      rewrite H in Hl. cbn [String.length] in Hl. lia. }
    intros [= H]. by apply IH.
  - intros H. rewrite <- (append_empty_r html) at 1.
    rewrite strip_text; [|done|by left]. apply append_empty_r.
  - induction html as [|ch s IH]; [by intros [|]|].
    rewrite strip_from_0_cons, !occurs_cons. cbn [String.length].
    destruct (String.prefix fragment_open (String ch s)).
    { intros _. pose proof (strip_from_length 15 s). lia. }
    destruct (String.prefix fragment_close (String ch s)).
    { intros _. pose proof (strip_from_length 16 s). lia. }
    intros H. cbn [String.length]. specialize (IH H). lia.
Qed.

(** The removal only deletes characters: what it returns is what is left
    of the markup, in the same order, after taking characters out. *)
Theorem strip_only_deletes (html : string) :
  sublist (list_ascii_of_string (strip_fragments html))
    (list_ascii_of_string html).
Proof.
  unfold strip_fragments. generalize 0.
  induction html as [|ch s IH]; intros k; [done|].
  destruct k as [|k].
  - rewrite strip_from_0_cons.
    destruct (String.prefix fragment_open _);
      [|destruct (String.prefix fragment_close _)]; cbn [list_ascii_of_string].
    + by apply sublist_cons.
    + by apply sublist_cons.
    + by apply sublist_skip.
  - cbn [strip_from list_ascii_of_string]. by apply sublist_cons.
Qed.

(** ** Polyfills and the hydration script *)

Lemma concat_empty_cons (x : string) (xs : list string) :
  String.concat EmptyString (x :: xs) = x +:+ String.concat EmptyString xs.
Proof. destruct xs; [by rewrite append_empty_r|done]. Qed.

Lemma append_assoc (a b d : string) : (a +:+ b) +:+ d = a +:+ b +:+ d.
Proof.
  induction a as [|x a IH]; [done|]. by rewrite !append_cons, IH.
Qed.

(** The polyfill scripts are one module script tag per declared URL, in
    the declared order, with nothing between them. *)
Theorem polyfill_scripts_in_order (a b : list string) (src : string) :
  polyfillScripts (a ++ src :: b) =
    polyfillScripts a +:+
    ("<script type=" +:+ dq +:+ "module" +:+ dq +:+ " src=" +:+ dq +:+ src +:+
     dq +:+ "></script>") +:+
    polyfillScripts b.
Proof.
  unfold polyfillScripts. induction a as [|x a IH].
  - cbn [app List.map]. by rewrite concat_empty_cons.
  - cbn [app List.map]. rewrite !concat_empty_cons, IH.
    symmetry. apply append_assoc.
Qed.

(** A hydrated render through an adapter that has a client source needs
    [componentExport]: without it the script generator fails with a
    TypeError, after the adapter has rendered, and nothing is returned. *)
Theorem hydration_needs_component_export inst c cp props children st html
    mode :
  hydrate cp = Some mode ->
  renderToStaticMarkup (renderer inst) c props children (options inst)
    = Normal html ->
  truthy (source inst) = true ->
  componentExport cp = None ->
  exists msg,
    render_instance serialize hash_unique inst c cp props children st =
      (Throw (TypeError msg), st).
Proof.
  intros Hh Hr Hs Hce. unfold render_instance. run. rewrite Hr.
  unfold ret. cbv beta iota zeta. rewrite Hh.
  unfold generateHydrateScript. rewrite Hs, Hce. by eexists.
Qed.

End MoreFacts.

(** * Properties of the configuration manager *)

Section ConfigFacts.
Import Config.
Context {Rt : Type}.
Variable loadConfig : list Effect -> string -> string -> Completion AstroConfig.
Variable importModule : list Effect -> Rt -> string -> Completion unit.

Implicit Types (m : ConfigManager Rt) (cfg : AstroConfig).

(** [update] does nothing at all, no reload and no import, when the
    state is clean or when no Snowpack runtime is attached; in the
    second case a pending update stays pending. *)
Theorem update_idle m :
  state m = Clean \/ snowpackRuntime m = None ->
  update loadConfig importModule m = (Normal tt, m).
Proof.
  intros [H|H]; unfold update, needsUpdate; rewrite H; [done|].
  by destruct (state m).
Qed.

(** A successful [update] of a dirty manager reloads
    [astro.config.mjs?version=<v>] from the project root, [v] being the
    version before the call, then imports the config module, and ends
    clean with the version raised by one (at [2^53], where the increment
    of the number has no effect, left as it is) and with the renderer
    names of the reloaded configuration, or the defaults if it names
    none. *)
Theorem update_reloads_dirty m rt cfg :
  state m = Dirty ->
  snowpackRuntime m = Some rt ->
  let root := projectRoot (astroConfig m) in
  loadConfig (effects m) root (versioned (version m)) = Normal cfg ->
  importModule (effects m ++ [LoadConfig root (versioned (version m))]) rt
    CONFIG_MODULE_URL = Normal tt ->
  update loadConfig importModule m =
    (Normal tt,
     {| state := Clean; snowpackRuntime := Some rt;
        rendererNames :=
          match renderers cfg with
          | Some l => l
          | None => DEFAULT_RENDERERS
          end;
        version := (if version m <? 9007199254740992 then version m + 1
                    else version m)%N;
        astroConfig := astroConfig m;
        effects := effects m ++ [LoadConfig root (versioned (version m));
                                 ImportModule CONFIG_MODULE_URL] |}).
Proof.
  intros Hs Hrt root Hload Himp. unfold update, needsUpdate, reload.
  rewrite Hs, Hrt. cbn. fold root. rewrite Hload.
  unfold do_importModule. cbn. fold root. rewrite Himp.
  unfold set_state, log, setRendererNames, bump. cbn.
  by rewrite <- app_assoc, Hrt.
Qed.

(** The first [update], in state initial, does not reload the
    configuration: it only imports the config module, and ends clean
    with the renderer names and the version it had. *)
Theorem update_initial_only_imports m rt :
  state m = Initial ->
  snowpackRuntime m = Some rt ->
  importModule (effects m) rt CONFIG_MODULE_URL = Normal tt ->
  update loadConfig importModule m =
    (Normal tt,
     {| state := Clean; snowpackRuntime := Some rt;
        rendererNames := rendererNames m; version := version m;
        astroConfig := astroConfig m;
        effects := effects m ++ [ImportModule CONFIG_MODULE_URL] |}).
Proof.
  intros Hs Hrt Himp. unfold update, needsUpdate.
  rewrite Hs, Hrt. unfold do_importModule. rewrite Himp.
  unfold set_state, log. cbn. by rewrite Hrt.
Qed.

(** An [update] that fails, in the reload or in the import, leaves the
    state as it was, so the update is still needed; the version is never
    lowered, and a failed reload has used its version up. *)
Theorem update_failure_stays_pending m m' e :
  update loadConfig importModule m = (Throw e, m') ->
  state m' = state m /\ needsUpdate m' = true /\
  snowpackRuntime m' = snowpackRuntime m /\
  (version m' = version m \/
   state m = Dirty /\ version m' = (version m + 1)%N).
Proof.
  intros H. unfold update in H.
  destruct (needsUpdate m) eqn:Hn; [|discriminate].
  destruct (snowpackRuntime m) as [rt|] eqn:Hrt; [|discriminate].
  assert (forall m1,
            match do_importModule importModule rt m1 with
            | (Normal _, m2) => (Normal tt, set_state Clean m2)
            | (Throw e, m2) => (Throw e, m2)
            end = (Throw e, m') ->
            state m' = state m1 /\ snowpackRuntime m' = snowpackRuntime m1 /\
            version m' = version m1) as Himp.
  { intros m1. unfold do_importModule.
    destruct (importModule _ _ _); [discriminate|]. by intros [= <- <-]. }
  assert (state m' = state m /\ snowpackRuntime m' = Some rt /\
          (version m' = version m \/
           state m = Dirty /\ version m' = (version m + 1)%N))
    as (H1 & H2 & H3).
  { destruct (state m) eqn:Hs.
    - apply Himp in H as (-> & -> & ->). auto.
    - unfold reload in H.
      destruct (loadConfig _ _ _) as [cfg|e1].
      + apply Himp in H as (-> & -> & ->). cbn.
        destruct (version m <? MAX_EXACT)%N; auto.
      + injection H as <- <-. cbn.
        destruct (version m <? MAX_EXACT)%N; auto.
    - apply Himp in H as (-> & -> & ->). auto. }
  repeat split; [done| |done|done].
  unfold needsUpdate in *. by rewrite H1.
Qed.

Lemma versioned_inj : Inj (=) (=) versioned.
Proof.
  intros a b H. unfold versioned in H.
  apply (inj (String.app "astro.config.mjs?version=")) in H.
  by apply (inj pretty) in H.
Qed.

Lemma op_versions_used o m ks :
  versions_used m ks ->
  (version m < MAX_EXACT)%N ->
  exists ks',
    versions_used (op loadConfig importModule o m) ks' /\
    (version (op loadConfig importModule o m) <= version m + 1)%N.
Proof.
  intros (Hl & Hnd & Hlt) Hv. destruct o as [| |rt]; cbn [op].
  - exists ks. split; [done|]. cbn. lia.
  - assert (forall m1 ks', versions_used m1 ks' -> forall u,
              versions_used (log (ImportModule u) m1) ks') as Himp.
    { intros m1 ks' (H1 & H2 & H3) u. split; [|done]. cbn.
      unfold loaded in *. by rewrite omap_app, H1, app_nil_r. }
    assert (forall m1 ks', versions_used m1 ks' -> forall s,
              versions_used (set_state s m1) ks') as Hset by done.
    assert (forall m1 ks', versions_used m1 ks' -> forall c,
              versions_used (setRendererNames c m1) ks') as Hnames by done.
    assert (version (bump m) = (version m + 1)%N) as Hbump.
    { cbn. apply N.ltb_lt in Hv. by rewrite Hv. }
    assert (versions_used
              (log (LoadConfig (projectRoot (astroConfig m))
                      (versioned (version m))) (bump m))
              (ks ++ [version m])) as Hload.
    { split; [|split].
      - cbn. unfold loaded in *. by rewrite omap_app, Hl, fmap_app.
      - apply NoDup_app. split; [done|]. split; [|apply NoDup_singleton].
        intros k Hk ->%list_elem_of_singleton.
        rewrite Forall_forall in Hlt. specialize (Hlt _ Hk). lia.
      - change (version (log _ (bump m))) with (version (bump m)).
        rewrite Hbump. apply Forall_app. split; [|repeat constructor; lia].
        eapply Forall_impl; [exact Hlt|]. cbn. lia. }
    assert (versions_used m ks) as Hm by done.
    unfold update.
    destruct (needsUpdate m); [|exists ks; split; [done|cbn; lia]].
    destruct (snowpackRuntime m) as [rt|]; [|exists ks; split; [done|cbn; lia]].
    assert (forall m1 ks', versions_used m1 ks' ->
              exists ks'',
                versions_used
                  (snd match do_importModule importModule rt m1 with
                       | (Normal _, m2) => (Normal tt, set_state Clean m2)
                       | (Throw e, m2) => (Throw e, m2)
                       end) ks'' /\
                version
                  (snd match do_importModule importModule rt m1 with
                       | (Normal _, m2) => (Normal tt, set_state Clean m2)
                       | (Throw e, m2) => (Throw e, m2)
                       end) = version m1) as Hfin.
    { intros m1 ks' H1. exists ks'. unfold do_importModule.
      destruct (importModule _ _ _); cbn; (split; [|done]);
        [apply Hset|]; by apply Himp. }
    assert (forall m1 ks', versions_used m1 ks' ->
              (version m1 <= version m + 1)%N ->
              exists ks'',
                versions_used
                  (snd match do_importModule importModule rt m1 with
                       | (Normal _, m2) => (Normal tt, set_state Clean m2)
                       | (Throw e, m2) => (Throw e, m2)
                       end) ks'' /\
                (version
                   (snd match do_importModule importModule rt m1 with
                        | (Normal _, m2) => (Normal tt, set_state Clean m2)
                        | (Throw e, m2) => (Throw e, m2)
                        end) <= version m + 1)%N) as Hfin'.
    { intros m1 ks' H1 H2. destruct (Hfin m1 ks' H1) as (ks'' & H3 & H4).
      exists ks''. split; [done|]. by rewrite H4. }
    destruct (state m);
      [apply (Hfin' m ks); [done|lia]| |apply (Hfin' m ks); [done|lia]].
    unfold reload. destruct (loadConfig _ _ _) as [cfg|e].
    + eapply Hfin'; [by apply Hnames, Hload|].
      change (version (setRendererNames cfg _)) with (version (bump m)).
      rewrite Hbump. lia.
    + exists (ks ++ [version m]). split; [done|].
      cbn [snd]. change (version (log _ (bump m))) with (version (bump m)).
      rewrite Hbump. lia.
  - exists ks. split; [done|]. cbn. lia.
Qed.

(** Over fewer than [2^53 - 1] operations on a newly constructed
    manager, whatever they are, no two reloads ask for the same file
    name: each uses a version of its own, so a reload is never answered
    from a module cache. *)
Theorem reload_names_never_repeat cfg (l : list (Op Rt)) :
  (N.of_nat (length l) < 9007199254740992 - 1)%N ->
  NoDup (loaded (effects (ops loadConfig importModule l (create cfg)))).
Proof.
  assert (forall m ks,
            versions_used m ks ->
            (version m + N.of_nat (length l) < MAX_EXACT)%N ->
            exists ks', versions_used (ops loadConfig importModule l m) ks')
    as H.
  { induction l as [|o l IH]; intros m ks Hm Hv; [by exists ks|].
    cbn [length] in Hv. cbn.
    destruct (op_versions_used o m ks Hm) as (ks' & Hks' & Hle); [lia|].
    apply (IH _ ks'); [done|lia]. }
  intros Hlen.
  destruct (H (create cfg) []) as (ks & Hl & Hnd & _).
  { split; [done|]. split; [apply NoDup_nil_2|constructor]. }
  { cbn. unfold MAX_EXACT. lia. }
  rewrite Hl. by apply (@NoDup_fmap_2 _ _ versioned versioned_inj).
Qed.

(** At version [2^53] the increment leaves the version as it is: two
    reloads in a row ask for the same file name. *)
Theorem reload_name_repeats_at_limit m :
  version m = 9007199254740992%N ->
  let m2 := snd (reload loadConfig (snd (reload loadConfig m))) in
  version m2 = version m /\
  loaded (effects m2) =
    loaded (effects m) ++
    ["astro.config.mjs?version=9007199254740992";
     "astro.config.mjs?version=9007199254740992"].
Proof.
  intros Hv.
  assert (forall m1, version m1 = MAX_EXACT ->
            version (snd (reload loadConfig m1)) = MAX_EXACT /\
            loaded (effects (snd (reload loadConfig m1))) =
              loaded (effects m1) ++ [versioned MAX_EXACT]) as Hone.
  { intros m1 H1. unfold reload.
    destruct (loadConfig _ _ _); cbn; rewrite H1; (split; [done|]);
      unfold loaded; by rewrite omap_app. }
  cbn zeta. destruct (Hone m Hv) as [H1 H2].
  destruct (Hone _ H1) as [H3 H4].
  split; [by rewrite H3, Hv|]. rewrite H4, H2, <- app_assoc. reflexivity.
Qed.

(** The default renderers are used only when the configuration has no
    [renderers] at all: a list that is given is taken as it is, the
    empty list included. *)
Theorem renderer_names_as_configured cfg :
  (forall l, renderers cfg = Some l ->
             rendererNames (@create Rt cfg) = l) /\
  (renderers cfg = None ->
   rendererNames (@create Rt cfg) = DEFAULT_RENDERERS) /\
  (rendererNames (@create Rt cfg) = [] <-> renderers cfg = Some []).
Proof.
  unfold create, setRendererNames. cbn.
  destruct (renderers cfg) as [l|]; repeat split; try congruence; done.
Qed.

End ConfigFacts.

Section ConfigModuleFacts.
Import Config.

Lemma ends_with_split (suffix s : string) :
  ends_with suffix s = true <-> exists dir, s = dir +:+ suffix.
Proof.
  split.
  - induction s as [|x s IH]; cbn [ends_with].
    + destruct (String.eqb_spec EmptyString suffix) as [<-|]; [|done].
      by exists EmptyString.
    + destruct (String.eqb_spec (String x s) suffix) as [<-|].
      * by exists EmptyString.
      * intros H. destruct (IH H) as [dir ->]. by exists (String x dir).
  - intros [dir ->]. induction dir as [|x dir IH].
    + change (EmptyString +:+ suffix) with suffix.
      destruct suffix; cbn [ends_with]; by rewrite String.eqb_refl.
    + rewrite append_cons. cbn [ends_with]. rewrite IH.
      by destruct (String.eqb _ _).
Qed.

(** A file is the config module exactly when its extension is [.js] and
    its name ends in [__astro_config.js]; the URL the manager imports is
    such a name. *)
Theorem config_module_names (fileExt filename : string) :
  (isConfigModule fileExt filename = true <->
   fileExt = ".js" /\
   exists dir, filename = dir +:+ CONFIG_MODULE_BASE_NAME) /\
  isConfigModule ".js" CONFIG_MODULE_URL = true.
Proof.
  split; [|done]. unfold isConfigModule.
  rewrite andb_true_iff, String.eqb_eq. by rewrite ends_with_split.
Qed.

Variable resolveDependency : string -> Completion string.
Variable path_join : string -> string -> string.

(** A package that passes the checks had strings for [client] and
    [server]; the instance is named after the package's own [name] if
    it has one and after the configured renderer otherwise, and its
    client and server paths are the package's, joined onto that name.
    It has a Snowpack plugin only if the package names one as a string,
    and any other truthy value there is refused. *)
Theorem instantiate_checks rendererName raw i :
  instantiate resolveDependency path_join rendererName raw = Normal i ->
  name i = default rendererName (raw_name raw) /\
  (exists c s, raw_client raw = JString c /\ raw_server raw = JString s /\
     client i = path_join (name i) c /\ server i = path_join (name i) s) /\
  match raw_snowpackPlugin raw with
  | JString p =>
      exists path, resolveDependency p = Normal path /\
        snowpackPlugin i =
          if js_truthy (raw_snowpackPluginOptions raw)
          then PluginWithOptions path (raw_snowpackPluginOptions raw)
          else Plugin path
  | other => js_truthy other = false /\ snowpackPlugin i = NoPlugin
  end.
Proof.
  unfold instantiate.
  destruct (raw_client raw) as [| | | |c| |]; try done.
  destruct (raw_server raw) as [| | | |s| |]; try done.
  assert (default rendererName (raw_name raw) =
          match raw_name raw with Some n => n | None => rendererName end)
    as Hn by (by destruct (raw_name raw)).
  destruct (raw_snowpackPlugin raw) as [| |b|n|p| |] eqn:Hp; cbn.
  1,2: intros [= <-]; cbn; rewrite Hn; eauto 10.
  - destruct b; [done|]. intros [= <-]; cbn; rewrite Hn; eauto 10.
  - destruct (Z.eqb n 0); [|done]. intros [= <-]; cbn; rewrite Hn; eauto 10.
  - destruct (resolveDependency p) as [path|e]; [|done].
    destruct (js_truthy _); intros [= <-]; cbn; rewrite Hn; eauto 10.
  - done.
  - done.
Qed.

(** The packages are instantiated all or none: the result is a list
    exactly when every package passes the checks, and it then has one
    instance per package, in the order of the renderer names. *)
Theorem instantiate_all_or_nothing loaded out :
  instantiate_all resolveDependency path_join loaded = Normal out <->
  Forall2 (fun x i =>
             instantiate resolveDependency path_join (fst x) (snd x) = Normal i)
    loaded out.
Proof.
  revert out. induction loaded as [|[n raw] rest IH]; intros out;
    cbn [instantiate_all].
  - split; [by intros [= <-]; constructor|by intros ->%Forall2_nil_inv_l].
  - destruct (instantiate _ _ n raw) as [i|e] eqn:Hi.
    + destruct (instantiate_all _ _ rest) as [l|e] eqn:Hl.
      * split.
        -- intros [= <-]. constructor; [done|]. by apply IH.
        -- intros (i' & l' & Hi' & Hl' & ->)%Forall2_cons_inv_l.
           cbn in Hi'. rewrite Hi in Hi'. injection Hi' as <-.
           apply IH in Hl'. by injection Hl' as <-.
      * split; [done|].
        intros (i' & l' & _ & Hl' & _)%Forall2_cons_inv_l.
        by apply IH in Hl'.
    + split; [done|].
      intros (i' & l' & Hi' & _)%Forall2_cons_inv_l.
      cbn in Hi'. congruence.
Qed.

(** When a package fails the checks and all the packages before it
    pass, the whole list fails with that package's error; the packages
    after it are not looked at. *)
Theorem instantiate_all_first_failure pre n raw post e :
  Forall (fun x => exists i,
            instantiate resolveDependency path_join (fst x) (snd x) = Normal i)
    pre ->
  instantiate resolveDependency path_join n raw = Throw e ->
  instantiate_all resolveDependency path_join (pre ++ (n, raw) :: post)
    = Throw e.
Proof.
  intros Hpre Hbad. induction Hpre as [|[n0 raw0] pre [i Hi] _ IH];
    cbn [app instantiate_all].
  - by rewrite Hbad.
  - cbn in Hi. by rewrite Hi, IH.
Qed.

(** A package whose [client] is not a string is refused with an error
    that names it, whatever its other fields; one whose [client] is a
    string but whose [server] is not is refused likewise. *)
Theorem instantiate_refuses_missing_paths rendererName raw :
  let name := default rendererName (raw_name raw) in
  ((forall c, raw_client raw <> JString c) ->
   instantiate resolveDependency path_join rendererName raw =
     Throw (Error (msg_client name)) /\
   occurs name (msg_client name) = true) /\
  ((exists c, raw_client raw = JString c) ->
   (forall s, raw_server raw <> JString s) ->
   instantiate resolveDependency path_join rendererName raw =
     Throw (Error (msg_server name)) /\
   occurs name (msg_server name) = true).
Proof.
  cbn zeta. unfold instantiate.
  assert (default rendererName (raw_name raw) =
          match raw_name raw with Some n => n | None => rendererName end)
    as -> by (by destruct (raw_name raw)).
  split.
  - intros Hc. split.
    + destruct (raw_client raw); try done. by destruct (Hc s).
    + unfold msg_client.
      repeat (apply occurs_here || apply occurs_append_r).
  - intros [c ->] Hs. split.
    + destruct (raw_server raw); try done. by destruct (Hs s).
    + unfold msg_server.
      repeat (apply occurs_here || apply occurs_append_r).
Qed.

End ConfigModuleFacts.

(** * The further properties on the samples *)

Section MoreOnSamples.
Import Samples.

Lemma resolve_all_decline_witness :
  resolveRenderer Counter [] EmptyString (with_registry [decliner; decliner]) =
    (Normal None,
     {| rendererInstances := [astroRendererInstance self_r; decliner; decliner];
        rendererCache := ∅;
        checked := [astroRendererInstance self_r; decliner; decliner] |}).
Proof.
  apply (resolve_all_decline (with_registry [decliner; decliner]) Counter []
           EmptyString).
  - reflexivity.
  - repeat constructor.
Defined.

Lemma cache_holds_only_accepted_witness :
  exists props children, run_check accepter Counter props children = Normal true.
Proof.
  apply (cache_holds_only_accepted sample_serialize sample_hash self_r html_r
           [CallSetRenderers [accepter]; CallResolve Counter [] EmptyString]
           Counter accepter).
  reflexivity.
Defined.

Lemma nothing_installed_witness :
  render sample_serialize sample_hash html_r Counter (static_props "Counter")
    [] [] initial =
    (Throw (Error (msg_no_renderer "Counter")), initial).
Proof.
  apply (proj2 (proj2 (nothing_installed sample_serialize sample_hash html_r
                         Counter (static_props "Counter") [] []))).
  reflexivity.
Defined.

Lemma sole_renderer_is_the_default_witness :
  render sample_serialize sample_hash html_r Counter (static_props "Counter")
    [] [] (snd (setRenderers self_r [decliner] initial)) =
  render_instance sample_serialize sample_hash decliner Counter
    (static_props "Counter") [] EmptyString
    {| rendererInstances := [astroRendererInstance self_r; decliner];
       rendererCache := ∅;
       checked := [astroRendererInstance self_r; decliner] |}.
Proof.
  refine (proj1 (sole_renderer_is_the_default sample_serialize sample_hash
                   self_r html_r initial [decliner] Counter
                   (static_props "Counter") [] [] eq_refl eq_refl _)
            decliner eq_refl).
  repeat constructor.
Defined.

Lemma render_failure_is_final_witness :
  let st := with_registry [failing; accepter] in
  let st1 := snd (resolveRenderer Counter [] EmptyString st) in
  render sample_serialize sample_hash html_r Counter (static_props "Counter")
    [] [] st = (Throw render_error, st1) /\
  rendererCache st1 !! Counter = Some failing /\
  resolveRenderer Counter [] EmptyString st1 = (Normal (Some failing), st1).
Proof.
  intros st st1.
  apply (render_failure_is_final sample_serialize sample_hash html_r st st1
           Counter (static_props "Counter") [] [] failing render_error).
  - reflexivity.
  - reflexivity.
Defined.

Lemma first_stage_rejects_exactly_witness :
  __astro_component sample_serialize sample_hash html_r widget
    (static_props "W") =
  Normal (render sample_serialize sample_hash html_r widget (static_props "W")).
Proof.
  apply (proj2 (first_stage_rejects_exactly sample_serialize sample_hash
                  html_r widget (static_props "W"))).
  intros e. discriminate.
Defined.

Lemma strip_fixes_exactly_marker_free_witness :
  String.length (strip_fragments "<p><astro-fragment>hi</astro-fragment></p>")
    < String.length "<p><astro-fragment>hi</astro-fragment></p>".
Proof.
  apply (proj2 (strip_fixes_exactly_marker_free
                  "<p><astro-fragment>hi</astro-fragment></p>")).
  left. reflexivity.
Defined.

Lemma hydration_needs_component_export_witness :
  exists msg,
    render_instance sample_serialize sample_hash accepter Counter
      (hydrated_no_export "Counter" Load "/c.js") [] EmptyString initial =
      (Throw (TypeError msg), initial).
Proof.
  apply (hydration_needs_component_export sample_serialize sample_hash
           accepter Counter (hydrated_no_export "Counter" Load "/c.js") []
           EmptyString initial "<p>yes</p>" Load).
  - reflexivity.
  - reflexivity.
  - reflexivity.
  - reflexivity.
Defined.

End MoreOnSamples.

Section ConfigOnSamples.
Import Config Config.Samples.

Lemma update_idle_witness :
  update load_ok import_ok (markDirty (create vue_only)) =
    (Normal tt, markDirty (create vue_only)).
Proof.
  apply (update_idle load_ok import_ok (markDirty (create vue_only))).
  right. reflexivity.
Defined.

Lemma update_reloads_dirty_witness :
  update load_ok import_ok
    (set_runtime (Some tt) (markDirty (create no_renderers))) =
    (Normal tt,
     {| state := Clean; snowpackRuntime := Some tt;
        rendererNames := ["@astrojs/renderer-vue"];
        version := 2%N; astroConfig := no_renderers;
        effects := [LoadConfig "/site/" "astro.config.mjs?version=1";
                    ImportModule "/_astro_frontend/__astro_config.js"] |}).
Proof.
  apply (update_reloads_dirty load_ok import_ok
           (set_runtime (Some tt) (markDirty (create no_renderers))) tt
           vue_only).
  - reflexivity.
  - reflexivity.
  - reflexivity.
  - reflexivity.
Defined.

Lemma update_initial_only_imports_witness :
  update load_fails import_ok (set_runtime (Some tt) (create no_renderers)) =
    (Normal tt,
     {| state := Clean; snowpackRuntime := Some tt;
        rendererNames := DEFAULT_RENDERERS; version := 1%N;
        astroConfig := no_renderers;
        effects := [ImportModule "/_astro_frontend/__astro_config.js"] |}).
Proof.
  apply (update_initial_only_imports load_fails import_ok
           (set_runtime (Some tt) (create no_renderers)) tt).
  - reflexivity.
  - reflexivity.
  - reflexivity.
Defined.

Lemma update_failure_stays_pending_witness :
  let m := set_runtime (Some tt) (markDirty (create vue_only)) in
  let m' := snd (update load_fails import_ok m) in
  state m' = state m /\ needsUpdate m' = true /\
  snowpackRuntime m' = snowpackRuntime m /\
  (version m' = version m \/
   state m = Dirty /\ version m' = (version m + 1)%N).
Proof.
  intros m m'.
  apply (update_failure_stays_pending load_fails import_ok m m'
           (Error "cannot read astro.config.mjs")).
  reflexivity.
Defined.

Lemma reload_names_never_repeat_witness :
  NoDup (loaded (effects
           (ops load_ok import_ok
              [OpSetRuntime (Some tt); OpMarkDirty; OpUpdate; OpMarkDirty;
               OpUpdate; OpUpdate; OpMarkDirty; OpUpdate]
              (create no_renderers)))).
Proof.
  apply (reload_names_never_repeat load_ok import_ok no_renderers
           [OpSetRuntime (Some tt); OpMarkDirty; OpUpdate; OpMarkDirty;
            OpUpdate; OpUpdate; OpMarkDirty; OpUpdate]).
  reflexivity.
Defined.

Lemma reload_name_repeats_at_limit_witness :
  let m :=
    {| state := Dirty; snowpackRuntime := Some tt; rendererNames := [];
       version := 9007199254740992; astroConfig := vue_only;
       effects := [] |} in
  let m2 := snd (reload load_ok (snd (reload load_ok m))) in
  version m2 = version m /\
  loaded (effects m2) =
    loaded (effects m) ++
    ["astro.config.mjs?version=9007199254740992";
     "astro.config.mjs?version=9007199254740992"].
Proof.
  intros m.
  apply (reload_name_repeats_at_limit load_ok m).
  reflexivity.
Defined.

Lemma renderer_names_as_configured_witness :
  rendererNames (@create unit {| projectRoot := "/site/"; renderers := Some [] |})
    = [].
Proof.
  apply (proj1 (renderer_names_as_configured
                  {| projectRoot := "/site/"; renderers := Some [] |})).
  reflexivity.
Defined.

Lemma instantiate_checks_witness :
  let i :=
    {| name := "@astrojs/renderer-vue";
       snowpackPlugin := Plugin "/site/node_modules/@snowpack/plugin-vue";
       client := "@astrojs/renderer-vue/client.js";
       server := "@astrojs/renderer-vue/server.js";
       knownEntrypoints := JUndefined; jsxImportSource := JUndefined |} in
  name i = default "@astrojs/renderer-vue" (raw_name good_package) /\
  (exists c s,
     raw_client good_package = JString c /\
     raw_server good_package = JString s /\
     client i = join_slash (name i) c /\ server i = join_slash (name i) s) /\
  (exists path,
     resolve_here "@snowpack/plugin-vue" = Normal path /\
     snowpackPlugin i = Plugin path).
Proof.
  intros i.
  apply (instantiate_checks resolve_here join_slash "@astrojs/renderer-vue"
           good_package i).
  reflexivity.
Defined.

Lemma instantiate_all_first_failure_witness :
  instantiate_all resolve_here join_slash
    ([("@astrojs/renderer-vue", good_package)] ++
     ("@astrojs/renderer-x", no_client_package) ::
     [("@astrojs/renderer-react", good_package)])
    = Throw (Error (msg_client "broken")).
Proof.
  apply (instantiate_all_first_failure resolve_here join_slash
           [("@astrojs/renderer-vue", good_package)] "@astrojs/renderer-x"
           no_client_package [("@astrojs/renderer-react", good_package)]
           (Error (msg_client "broken"))).
  - repeat constructor. eexists. reflexivity.
  - reflexivity.
Defined.

Lemma instantiate_refuses_missing_paths_witness :
  instantiate resolve_here join_slash "@astrojs/renderer-x" no_client_package
    = Throw (Error (msg_client "broken")) /\
  occurs "broken" (msg_client "broken") = true.
Proof.
  apply (proj1 (instantiate_refuses_missing_paths resolve_here join_slash
                  "@astrojs/renderer-x" no_client_package)).
  intros c. discriminate.
Defined.

End ConfigOnSamples.
